(** * PhotoGalleryLib: a shallow embedding and its verified properties

    The library [src/PhotoGalleryLib.ts] is a single object literal whose
    members are arrow functions acting on the browser page: they read
    [window.innerWidth], assign [window.onresize], create DOM elements and
    call functions supplied by the host application.

    The embedding makes the page an explicit state ([Page]) and every
    library function a computation in a small state-and-exception monad
    ([JS]).  A thrown exception keeps the page as it was at the point of
    the [throw], exactly as in JavaScript: nothing is rolled back.

    - numbers are IEEE 754 binary64 values (primitive [float]);
    - DOM elements live in a store indexed by node identity, so that two
      elements with the same content remain distinguishable;
    - host callbacks are opaque: calling one is recorded in the page's
      call log, and the call returns or throws as the page's [host] says;
      the library cannot tell more about a callback than that. *)

From Stdlib Require Import Floats ZArith Lia.
From stdpp Require Import base option list strings.

Set Default Proof Using "Type".
Local Open Scope string_scope.
Local Open Scope list_scope.

(** * Size classes *)

(** The TypeScript type ["small" | "medium" | "large"]. *)
Inductive SizeClass : Type := small | medium | large.

#[global] Instance SizeClass_eq_dec : EqDecision SizeClass.
Proof. solve_decision. Defined.

(** [getViewportSizeName], the local helper of [onSizeClassChange]
    (lines 17-25).  [<=] on JavaScript numbers is the IEEE comparison. *)
Definition getViewportSizeName (width : float) : SizeClass :=
  if (width <=? 600)%float then small
  else if (width <=? 800)%float then medium
  else large.

(** * JavaScript values, errors and completions *)

(** Identity of a function object supplied by the host application. *)
Abbreviation FunId := nat.

Inductive JsValue : Type :=
| JsUndefined
| JsNull
| JsBoolean (b : bool)
| JsNumber (x : float)
| JsString (s : string)
| JsObject
| JsFunction (f : FunId).

Definition typeof (v : JsValue) : string :=
  match v with
  | JsUndefined => "undefined"
  | JsNull => "object"
  | JsBoolean _ => "boolean"
  | JsNumber _ => "number"
  | JsString _ => "string"
  | JsObject => "object"
  | JsFunction _ => "function"
  end.

Inductive Error : Type :=
| TypeError (message : string)
| RangeError (message : string)
| OtherError (message : string).

Inductive Completion (A : Type) : Type :=
| Return (a : A)
| Throw (e : Error).
Arguments Return {A} a.
Arguments Throw {A} e.

(** * The page *)

Abbreviation NodeId := nat.

(** An element of the DOM.  [children] is the element-only child list
    (text nodes carry no information the library ever reads). *)
Record Element : Type := mkElement {
  tagName : string;
  attributes : list (string * string);
  children : list NodeId
}.

(** The closure assigned to [window.onresize] at line 30, given by the two
    variables it captures.  [currentViewportSize] is the [let] of line 27;
    the closure is its only user once [onSizeClassChange] has returned. *)
Record ResizeHandler : Type := mkResizeHandler {
  callback : JsValue;
  currentViewportSize : SizeClass
}.

Record Window : Type := mkWindow {
  innerWidth : float;
  onresize : option ResizeHandler
}.

(** One invocation of a host function with a size class as argument. *)
Record Call : Type := mkCall {
  callee : FunId;
  argument : SizeClass
}.

(** How a call of a host function completes: [h f arg earlier] is the
    value the function [f] throws when it is called with [arg] after the
    calls [earlier], and [None] when it returns normally. *)
Definition Host : Type := FunId -> SizeClass -> list Call -> option Error.

(** [document] is the element store: the node with identity [n] is
    [document !! n].  Elements are never removed (a detached element stays
    in the store, unreachable).  [calls] logs the host callbacks invoked so
    far, oldest first.  [host] is the code of the host's functions; the
    library never changes it. *)
Record Page : Type := mkPage {
  window : Window;
  document : list Element;
  calls : list Call;
  host : Host
}.

Definition set_window (w : Window) (p : Page) : Page :=
  mkPage w (document p) (calls p) (host p).
Definition set_document (d : list Element) (p : Page) : Page :=
  mkPage (window p) d (calls p) (host p).
Definition set_calls (c : list Call) (p : Page) : Page :=
  mkPage (window p) (document p) c (host p).

(** * The monad of page computations *)

Definition JS (A : Type) : Type := Page -> Completion A * Page.

#[global] Instance JS_ret : MRet JS := fun A a p => (Return a, p).

Definition throw {A} (e : Error) : JS A := fun p => (Throw e, p).

(** Sequencing: an exception of the first computation skips the second. *)
#[global] Instance JS_bind : MBind JS := fun A B k m p =>
  match m p with
  | (Return a, p') => k a p'
  | (Throw e, p') => (Throw e, p')
  end.

Definition gets {A} (f : Page -> A) : JS A := fun p => (Return (f p), p).
Definition modify (f : Page -> Page) : JS unit := fun p => (Return tt, f p).

(** The page a computation leaves behind, and its completion. *)
Definition page_after {A} (m : JS A) (p : Page) : Page := snd (m p).
Definition completion {A} (m : JS A) (p : Page) : Completion A := fst (m p).

(** [forEach] of arrays and node lists: the callback receives the element
    and its index. *)
Fixpoint forEach_from {A} (i : nat) (l : list A) (f : A -> nat -> JS unit)
  : JS unit :=
  match l with
  | [] => mret tt
  | x :: l' => f x i;; forEach_from (S i) l' f
  end.
Definition forEach {A} (l : list A) (f : A -> nat -> JS unit) : JS unit :=
  forEach_from 0 l f.

(** * The viewport watcher: [onSizeClassChange] *)

(** Calling a value.  Host functions are opaque: the call is logged, and
    it returns or throws as the host's code decides. *)
Definition call (v : JsValue) (arg : SizeClass) : JS unit :=
  match v with
  | JsFunction f =>
      earlier ← gets calls;
      modify (fun p => set_calls (earlier ++ [mkCall f arg]) p);;
      thrown ← gets (fun p => host p f arg earlier);
      match thrown with
      | Some e => throw e
      | None => mret tt
      end
  | _ => throw (TypeError "callback is not a function")
  end.

(** An exception that reaches the browser from an event listener is
    reported and goes no further: the event loop carries on. *)
Definition reported (m : JS unit) : JS unit := fun p => (Return tt, snd (m p)).

Definition set_onresize (h : ResizeHandler) : JS unit :=
  modify (fun p => set_window (mkWindow (innerWidth (window p)) (Some h)) p).

(** Lines 12-37. *)
Definition onSizeClassChange (callback : JsValue) : JS unit :=
  if negb (String.eqb (typeof callback) "function") then
    throw (TypeError "Callback parameter has to be called and of type function.")
  else
    width ← gets (fun p => innerWidth (window p));
    let currentViewportSize := getViewportSizeName width in
    call callback currentViewportSize;;
    set_onresize (mkResizeHandler callback currentViewportSize).

(** The body of the closure of lines 30-36, run with the closure [h] that
    is installed in [window.onresize]; the assignment of line 33 updates
    the captured variable of that same closure. *)
Definition resize_listener (h : ResizeHandler) : JS unit :=
  width ← gets (fun p => innerWidth (window p));
  let newViewportSize := getViewportSizeName width in
  if bool_decide (newViewportSize <> currentViewportSize h) then
    set_onresize (mkResizeHandler (callback h) newViewportSize);;
    call (callback h) newViewportSize
  else mret tt.

(** The browser resizes the viewport to [width] and dispatches the
    [resize] event: the handler in [window.onresize], if any, runs, and
    what it throws is reported. *)
Definition resize (width : float) : JS unit :=
  modify (fun p => set_window (mkWindow width (onresize (window p))) p);;
  h ← gets (fun p => onresize (window p));
  match h with
  | Some h => reported (resize_listener h)
  | None => mret tt
  end.

(** A sequence of resize events, handled one after the other. *)
Fixpoint resizes (widths : list float) : JS unit :=
  match widths with
  | [] => mret tt
  | w :: ws => resize w;; resizes ws
  end.

(** * The DOM operations used by [generateGrid] *)

(** [document.createElement(tag)]: a new element, attached nowhere. *)
Definition createElement (tag : string) : JS NodeId := fun p =>
  (Return (length (document p)),
   set_document (document p ++ [mkElement tag [] []]) p).

Fixpoint set_attribute (name value : string) (attrs : list (string * string))
  : list (string * string) :=
  match attrs with
  | [] => [(name, value)]
  | (k, v) :: attrs' =>
      if String.eqb k name then (name, value) :: attrs'
      else (k, v) :: set_attribute name value attrs'
  end.

Fixpoint get_attribute (name : string) (attrs : list (string * string))
  : option string :=
  match attrs with
  | [] => None
  | (k, v) :: attrs' =>
      if String.eqb k name then Some v else get_attribute name attrs'
  end.

(** Assignment to a reflected attribute ([el.id = v], [img.src = v]). *)
Definition setAttribute (n : NodeId) (name value : string) : JS unit :=
  modify (fun p =>
    set_document
      (alter (fun e => mkElement (tagName e)
                         (set_attribute name value (attributes e))
                         (children e)) n (document p)) p).

(** Markup as the HTML parser sees it: nested elements, here without
    attributes.  White space between tags yields text nodes only. *)
#[warnings="-register-all"] Inductive Markup : Type :=
| Tag (name : string) (content : list Markup).

(** The parser creates the elements of a fragment in document order: an
    element first, then its content, which becomes its child list. *)
Fixpoint build (m : Markup) (d : list Element) : NodeId * list Element :=
  match m with
  | Tag name content =>
      let n := length d in
      let r :=
        (fix build_all (ms : list Markup) (d : list Element)
           : list NodeId * list Element :=
           match ms with
           | [] => ([], d)
           | m' :: ms' =>
               let r1 := build m' d in
               let r2 := build_all ms' (snd r1) in
               (fst r1 :: fst r2, snd r2)
           end) content (d ++ [mkElement name [] []]) in
      (n, alter (fun e => mkElement (tagName e) (attributes e) (fst r))
            n (snd r))
  end.

Fixpoint build_all (ms : list Markup) (d : list Element)
  : list NodeId * list Element :=
  match ms with
  | [] => ([], d)
  | m :: ms' =>
      let r1 := build m d in
      let r2 := build_all ms' (snd r1) in
      (fst r1 :: fst r2, snd r2)
  end.

(** Rows given directly inside a [table] are wrapped by the parser in an
    implied [tbody]. *)
Definition fragment (context : string) (html : list Markup) : list Markup :=
  if String.eqb context "table" then
    match html with
    | [] => []
    | _ :: _ => [Tag "tbody" html]
    end
  else html.

(** [el.innerHTML = html]: the former children are detached and the parsed
    fragment takes their place. *)
Definition set_innerHTML (n : NodeId) (html : list Markup) : JS unit :=
  modify (fun p =>
    match document p !! n with
    | None => p
    | Some e =>
        let r := build_all (fragment (tagName e) html) (document p) in
        set_document
          (alter (fun e => mkElement (tagName e) (attributes e) (fst r))
             n (snd r)) p
    end).

(** The descendants of [n] in document order.  The store is not
    structurally a tree, so the walk is bounded by [fuel]; the depth of a
    tree never exceeds the number of elements in the store. *)
Fixpoint descendants (fuel : nat) (d : list Element) (n : NodeId)
  : list NodeId :=
  match fuel with
  | 0 => []
  | S fuel' =>
      match d !! n with
      | None => []
      | Some e =>
          flat_map (fun c => c :: descendants fuel' d c) (children e)
      end
  end.

Definition has_tag (d : list Element) (tag : string) (n : NodeId) : bool :=
  match d !! n with
  | Some e => String.eqb (tagName e) tag
  | None => false
  end.

(** [el.querySelectorAll(tag)] for a type selector. *)
Definition querySelectorAll (n : NodeId) (tag : string) : JS (list NodeId) :=
  gets (fun p =>
    List.filter (has_tag (document p) tag)
      (descendants (length (document p)) (document p) n)).

(** * [generateGrid] *)

Definition td_img : Markup := Tag "td" [Tag "img" []].

(** The three template literals of lines 52-111. *)
Definition VIEWPORT_LARGE_TABLE : list Markup :=
  [ Tag "tr" [td_img; td_img; td_img; td_img];
    Tag "tr" [td_img; td_img; td_img; td_img] ].

Definition VIEWPORT_MEDIUM_TABLE : list Markup :=
  [ Tag "tr" [td_img; td_img];
    Tag "tr" [td_img; td_img];
    Tag "tr" [td_img; td_img];
    Tag "tr" [td_img; td_img] ].

Definition VIEWPORT_SMALL_TABLE : list Markup :=
  [ Tag "tr" [td_img]; Tag "tr" [td_img]; Tag "tr" [td_img]; Tag "tr" [td_img];
    Tag "tr" [td_img]; Tag "tr" [td_img]; Tag "tr" [td_img]; Tag "tr" [td_img] ].

(** [imageUrls[i]] converted to a string, as the [src] setter does: an
    index past the end reads [undefined]. *)
Definition url_at (imageUrls : list string) (i : nat) : string :=
  default "undefined" (imageUrls !! i).

(** Lines 47-126. *)
Definition generateGrid (imageUrls : list string) (size : SizeClass)
  : JS NodeId :=
  if negb (length imageUrls =? 8)%nat then
    throw (RangeError "The list of image urls has to contain exactly 8 elements.")
  else
    imagesGrid ← createElement "table";
    setAttribute imagesGrid "id" "imagesGrid";;
    (if bool_decide (size = large) then
       set_innerHTML imagesGrid VIEWPORT_LARGE_TABLE
     else if bool_decide (size = medium) then
       set_innerHTML imagesGrid VIEWPORT_MEDIUM_TABLE
     else
       set_innerHTML imagesGrid VIEWPORT_SMALL_TABLE);;
    images ← querySelectorAll imagesGrid "img";
    forEach images (fun imageTag i =>
      setAttribute imageTag "src" (url_at imageUrls i));;
    mret imagesGrid.

(** * Reading a grid back *)

(** The element tree below a node, without node identities. *)
#[warnings="-register-all"] Inductive Tree : Type :=
| Node (tag : string) (attrs : list (string * string)) (kids : list Tree).

Fixpoint snapshot (fuel : nat) (d : list Element) (n : NodeId) : option Tree :=
  match fuel with
  | 0 => None
  | S fuel' =>
      e ← d !! n;
      kids ← mapM (snapshot fuel' d) (children e);
      Some (Node (tagName e) (attributes e) kids)
  end.

(** [outerHTML]-like view of node [n] of page [p]. *)
Definition tree_at (p : Page) (n : NodeId) : option Tree :=
  snapshot (length (document p)) (document p) n.

(** The identities of [n] and of everything below it. *)
Definition nodes_at (p : Page) (n : NodeId) : list NodeId :=
  n :: descendants (length (document p)) (document p) n.

(** * Placing a store behind an existing one

    Whatever elements a page already holds, the library only ever touches
    the elements it creates itself.  [graft d0 p] is the page [p] with its
    store moved behind [d0]: every identity grows by [length d0]. *)

Definition shift (k : nat) (e : Element) : Element :=
  mkElement (tagName e) (attributes e) (Nat.add k <$> children e).

Definition graft (d0 : list Element) (p : Page) : Page :=
  set_document (d0 ++ (shift (length d0) <$> document p)) p.

(** [m'] on the grafted page does what [m] does on the page itself, with
    results renamed by [f]. *)
Definition relocates (d0 : list Element) {A} (f : A -> A) (m' m : JS A)
    (p : Page) : Prop :=
  m' (graft d0 p) =
  (match fst (m p) with Return a => Return (f a) | Throw e => Throw e end,
   graft d0 (snd (m p))).

(** * Reading the grid out of a tree *)

Definition tag_of (t : Tree) : string := match t with Node tag _ _ => tag end.
Definition attrs_of (t : Tree) : list (string * string) :=
  match t with Node _ attrs _ => attrs end.
Definition kids_of (t : Tree) : list Tree :=
  match t with Node _ _ kids => kids end.

(** All elements strictly below [t], in document order. *)
Fixpoint below (t : Tree) : list Tree :=
  match t with
  | Node _ _ kids => flat_map (fun c => c :: below c) kids
  end.

Definition with_tag (tag : string) (ts : list Tree) : list Tree :=
  List.filter (fun t => String.eqb (tag_of t) tag) ts.

(** [table.rows], [row.cells] and the [src] of the images of a cell. *)
Definition table_rows (t : Tree) : list Tree := with_tag "tr" (below t).
Definition row_cells (r : Tree) : list Tree := with_tag "td" (kids_of r).
Definition cell_sources (c : Tree) : list (option string) :=
  (fun i => get_attribute "src" (attrs_of i)) <$> with_tag "img" (kids_of c).

(** The cells of a table, row after row. *)
Definition row_major (t : Tree) : list Tree :=
  concat (row_cells <$> table_rows t).

(** The shape the specification gives each size class: rows, columns. *)
Definition spec_shape (size : SizeClass) : nat * nat :=
  match size with
  | small => (8, 1)
  | medium => (4, 2)
  | large => (2, 4)
  end.

(** The tree of a grid of [rows] by [columns] cells whose cell in row [r]
    and column [c] shows [imageUrls[r * columns + c]]. *)
Definition cell_tree (url : string) : Tree :=
  Node "td" [] [Node "img" [("src", url)] []].
Definition row_tree (columns : nat) (imageUrls : list string) (r : nat) : Tree :=
  Node "tr" [] (cell_tree <$> take columns (drop (r * columns) imageUrls)).
Definition grid_tree (rows columns : nat) (imageUrls : list string) : Tree :=
  Node "table" [("id", "imagesGrid")]
    [Node "tbody" [] (row_tree columns imageUrls <$> seq 0 rows)].

(** * Observing the watcher *)

(** The page's resize listener is the closure created for the host
    function [f], and the size class it last passed on is [current]. *)
Definition watching (f : FunId) (current : SizeClass) (p : Page) : Prop :=
  onresize (window p) = Some (mkResizeHandler (JsFunction f) current).

(** The size classes a sequence of widths passes through, keeping a class
    only where it differs from the one before it; [current] is the class
    before the first width. *)
Fixpoint transitions (current : SizeClass) (widths : list float)
  : list SizeClass :=
  match widths with
  | [] => []
  | w :: ws =>
      let c := getViewportSizeName w in
      if decide (c = current) then transitions current ws
      else c :: transitions c ws
  end.

(** No element of the list equals its successor. *)
Fixpoint adjacent_distinct (l : list SizeClass) : bool :=
  match l with
  | x :: l' =>
      match l' with
      | y :: _ => bool_decide (x <> y) && adjacent_distinct l'
      | [] => true
      end
  | [] => true
  end.

(** The page after the host called [onSizeClassChange] with the function
    [f]. *)
Definition registered (f : FunId) (p : Page) : Page :=
  page_after (onSizeClassChange (JsFunction f)) p.

(** The page after the host called [onSizeClassChange] with [f], the
    viewport went through [widths], and the host called
    [onSizeClassChange] with [g]. *)
Definition registered_again (f g : FunId) (widths : list float) (p : Page)
  : Page :=
  page_after (onSizeClassChange (JsFunction g))
    (page_after (resizes widths) (registered f p)).

(** * Example pages *)

(** Host functions that always return normally. *)
Definition returning : Host := fun _ _ _ => None.

(** Host functions of which [g] throws whenever it is called. *)
Definition throwing (g : FunId) : Host := fun f _ _ =>
  if Nat.eqb f g then Some (OtherError "callback failed") else None.

(** Host functions of which [g] returns from its first call and throws
    from every later one. *)
Definition throwing_later (g : FunId) : Host := fun f _ earlier =>
  if Nat.eqb f g && existsb (fun c => Nat.eqb (callee c) g) earlier
  then Some (OtherError "callback failed") else None.

Definition blank_page (width : float) : Page :=
  mkPage (mkWindow width None) [] [] returning.

(** A page without listener whose host function [g] throws. *)
Definition fragile_page (width : float) (g : FunId) : Page :=
  mkPage (mkWindow width None) [] [] (throwing g).

(** A page without listener whose host function [g] throws from its
    second call on. *)
Definition flaky_page (width : float) (g : FunId) : Page :=
  mkPage (mkWindow width None) [] [] (throwing_later g).

(** A page in use: a listener is installed, a grid exists, calls were
    made. *)
Definition busy_page : Page :=
  mkPage (mkWindow 1024 (Some (mkResizeHandler (JsFunction 7) large)))
    [mkElement "body" [] [1]; mkElement "table" [("id", "imagesGrid")] []]
    [mkCall 7 small; mkCall 7 large] returning.

Definition a_to_h : list string := ["a"; "b"; "c"; "d"; "e"; "f"; "g"; "h"].

(** * The presentation controller *)

Module PresentationController.

(** Modelled from the spec: the presentation state of section 3,
    [{ isOpen, currentIndex }].  The controller is host-application code;
    the sources contain only the library it calls. *)
Record PresentationState : Type := mkState {
  isOpen : bool;
  currentIndex : Z
}.

Definition Open (i : Z) : PresentationState := mkState true i.
Definition Closed (i : Z) : PresentationState := mkState false i.

(** Modelled from the spec: the events of the transition table of
    section 4.3. *)
Inductive Event : Type :=
| CellClicked (i : Z)
| CloseActivated
| PreviousActivated
| NextActivated.

(** Modelled from the spec: the transition table of section 4.3.  A click
    opens on the clicked index; close keeps the index; previous and next
    wrap around; close, previous and next do nothing while closed. *)
Definition step (s : PresentationState) (e : Event) : PresentationState :=
  match e with
  | CellClicked i => Open i
  | CloseActivated => if isOpen s then Closed (currentIndex s) else s
  | PreviousActivated =>
      if isOpen s then Open ((currentIndex s - 1 + 8) mod 8) else s
  | NextActivated =>
      if isOpen s then Open ((currentIndex s + 1) mod 8) else s
  end.

(** Modelled from the spec: a click carries the index of one of the eight
    cells. *)
Definition admissible (e : Event) : Prop :=
  match e with
  | CellClicked i => (0 <= i <= 7)%Z
  | _ => True
  end.

(** Modelled from the spec: the machine starts closed, with some valid
    index, and moves by admissible events. *)
Inductive reachable : PresentationState -> Prop :=
| reachable_start i : (0 <= i <= 7)%Z -> reachable (Closed i)
| reachable_step s e : reachable s -> admissible e -> reachable (step s e).

End PresentationController.

(** * More about the watcher and the grid *)

(** The size classes in the order of the widths they stand for. *)
Definition rank (s : SizeClass) : nat :=
  match s with
  | small => 0
  | medium => 1
  | large => 2
  end.

(** No element of the store names a child that does not exist (yet). *)
Definition store_closed (d : list Element) : bool :=
  forallb (fun e => forallb (fun c => Nat.ltb c (length d)) (children e)) d.

(** * The document, inline styles and click listeners

    The remaining functions of the library work on the document of the
    page: they look elements up with selectors, set inline styles, attach
    elements and register click listeners.  [Browser] adds that state to
    the page. *)

(** A click listener: a function of the host, or the closure
    [() => callback(index)] of [addImageClickHandlers] with the two
    variables it captures. *)
Inductive Listener : Type :=
| HostListener (f : FunId)
| IndexListener (callback : FunId) (index : nat).

#[global] Instance Listener_eq_dec : EqDecision Listener.
Proof. solve_decision. Defined.

(** One call of a host function made while a click is dispatched: with the
    event (given by its target) or with an image index. *)
Inductive HostCall : Type :=
| EventCall (f : FunId) (target : NodeId)
| IndexCall (f : FunId) (index : nat).

(** [documentElement] is the root of the document tree, if the document
    has one; elements of the store that are not below it are detached.
    [styleLog] records every assignment to a property of an element's
    [style], latest first.  [clickListeners] are the listeners added with
    [addEventListener('click', ...)], in the order of registration.
    [hostCalls] logs the host functions called by click listeners, oldest
    first. *)
Record Browser : Type := mkBrowser {
  page : Page;
  documentElement : option NodeId;
  styleLog : list (NodeId * (string * string));
  clickListeners : list (NodeId * Listener);
  hostCalls : list HostCall
}.

Definition set_page (p : Page) (b : Browser) : Browser :=
  mkBrowser p (documentElement b) (styleLog b) (clickListeners b) (hostCalls b).
Definition set_styleLog (s : list (NodeId * (string * string))) (b : Browser)
  : Browser :=
  mkBrowser (page b) (documentElement b) s (clickListeners b) (hostCalls b).
Definition set_clickListeners (l : list (NodeId * Listener)) (b : Browser)
  : Browser :=
  mkBrowser (page b) (documentElement b) (styleLog b) l (hostCalls b).
Definition set_hostCalls (c : list HostCall) (b : Browser) : Browser :=
  mkBrowser (page b) (documentElement b) (styleLog b) (clickListeners b) c.

(** Computations on the browser; exceptions as in [JS]. *)
Definition DOM (A : Type) : Type := Browser -> Completion A * Browser.

#[global] Instance DOM_ret : MRet DOM := fun A a b => (Return a, b).

#[global] Instance DOM_bind : MBind DOM := fun A B k m b =>
  match m b with
  | (Return a, b') => k a b'
  | (Throw e, b') => (Throw e, b')
  end.

Definition throw_dom {A} (e : Error) : DOM A := fun b => (Throw e, b).
Definition gets_dom {A} (f : Browser -> A) : DOM A :=
  fun b => (Return (f b), b).
Definition modify_dom (f : Browser -> Browser) : DOM unit :=
  fun b => (Return tt, f b).

(** A computation on the page, run on the page of the browser. *)
Definition on_page {A} (m : JS A) : DOM A := fun b =>
  (fst (m (page b)), set_page (snd (m (page b))) b).

Definition browser_after {A} (m : DOM A) (b : Browser) : Browser := snd (m b).
Definition outcome {A} (m : DOM A) (b : Browser) : Completion A := fst (m b).

Fixpoint forEach_dom_from {A} (i : nat) (l : list A) (f : A -> nat -> DOM unit)
  : DOM unit :=
  match l with
  | [] => mret tt
  | x :: l' => f x i;; forEach_dom_from (S i) l' f
  end.
Definition forEach_dom {A} (l : list A) (f : A -> nat -> DOM unit) : DOM unit :=
  forEach_dom_from 0 l f.

(** ** Markup with attributes *)

#[warnings="-register-all"] Inductive Html : Type :=
| Elem (name : string) (attrs : list (string * string)) (content : list Html).

(** As [build], for elements that carry attributes. *)
Fixpoint build_html (m : Html) (d : list Element) : NodeId * list Element :=
  match m with
  | Elem name attrs content =>
      let n := length d in
      let r :=
        (fix build_html_all (ms : list Html) (d : list Element)
           : list NodeId * list Element :=
           match ms with
           | [] => ([], d)
           | m' :: ms' =>
               let r1 := build_html m' d in
               let r2 := build_html_all ms' (snd r1) in
               (fst r1 :: fst r2, snd r2)
           end) content (d ++ [mkElement name attrs []]) in
      (n, alter (fun e => mkElement (tagName e) (attributes e) (fst r))
            n (snd r))
  end.

Fixpoint build_html_all (ms : list Html) (d : list Element)
  : list NodeId * list Element :=
  match ms with
  | [] => ([], d)
  | m :: ms' =>
      let r1 := build_html m d in
      let r2 := build_html_all ms' (snd r1) in
      (fst r1 :: fst r2, snd r2)
  end.

(** [el.innerHTML = html] for an element that is not a table. *)
Definition set_innerHTML_html (n : NodeId) (html : list Html) : JS unit :=
  modify (fun p =>
    match document p !! n with
    | None => p
    | Some e =>
        let r := build_html_all html (document p) in
        set_document
          (alter (fun e => mkElement (tagName e) (attributes e) (fst r))
             n (snd r)) p
    end).

(** ** Selectors *)

(** The selectors the library uses: ['body'], ['#closeButton'] and
    ['#imagesGrid img']. *)
Inductive Selector : Type :=
| TypeSelector (tag : string)
| IdSelector (id : string)
| InsideId (id : string) (tag : string).

Definition has_id (d : list Element) (id : string) (n : NodeId) : bool :=
  match d !! n with
  | Some e =>
      match get_attribute "id" (attributes e) with
      | Some v => String.eqb v id
      | None => false
      end
  | None => false
  end.

(** The parent of [n]: the element that lists [n] among its children. *)
Definition parent_of (d : list Element) (n : NodeId) : option NodeId :=
  fst <$> list_find (fun e => n ∈ children e) d.

(** The ancestors of [n], nearest first. *)
Fixpoint ancestors (fuel : nat) (d : list Element) (n : NodeId)
  : list NodeId :=
  match fuel with
  | 0 => []
  | S fuel' =>
      match parent_of d n with
      | Some p => p :: ancestors fuel' d p
      | None => []
      end
  end.

Definition matches (d : list Element) (s : Selector) (n : NodeId) : bool :=
  match s with
  | TypeSelector tag => has_tag d tag n
  | IdSelector id => has_id d id n
  | InsideId id tag =>
      has_tag d tag n && existsb (has_id d id) (ancestors (length d) d n)
  end.

(** The elements of the document, in document order. *)
Definition document_nodes (b : Browser) : list NodeId :=
  match documentElement b with
  | Some r =>
      r :: descendants (length (document (page b))) (document (page b)) r
  | None => []
  end.

(** [document.querySelectorAll(s)] and [document.querySelector(s)]. *)
Definition select_all (b : Browser) (s : Selector) : list NodeId :=
  List.filter (matches (document (page b)) s) (document_nodes b).
Definition select (b : Browser) (s : Selector) : option NodeId :=
  head (select_all b s).

Definition document_querySelectorAll (s : Selector) : DOM (list NodeId) :=
  gets_dom (fun b => select_all b s).
Definition document_querySelector (s : Selector) : DOM (option NodeId) :=
  gets_dom (fun b => select b s).

(** [el.querySelector(s)]: the first match below [el]. *)
Definition element_querySelector (n : NodeId) (s : Selector)
  : JS (option NodeId) :=
  gets (fun p =>
    head (List.filter (matches (document p) s)
            (descendants (length (document p)) (document p) n))).

(** Using the result of [querySelector]: a property of [null] cannot be
    read (the [as] casts of the source exist at compile time only). *)
Definition deref (o : option NodeId) : DOM NodeId :=
  match o with
  | Some n => mret n
  | None => throw_dom (TypeError "Cannot read properties of null")
  end.

(** ** Styles *)

(** [el.style.prop = value]. *)
Definition set_style (n : NodeId) (prop value : string) : DOM unit :=
  modify_dom (fun b => set_styleLog ((n, (prop, value)) :: styleLog b) b).

(** [Object.assign(el.style, { ... })]: the properties are assigned in the
    order they are written. *)
Fixpoint assign_style (n : NodeId) (props : list (string * string)) : DOM unit :=
  match props with
  | [] => mret tt
  | (prop, value) :: props' => set_style n prop value;; assign_style n props'
  end.

(** The value of an inline style property: the latest assignment the CSS
    parser accepted.  Which values a browser accepts is not decided by the
    library; [css_valid] stands for it. *)
Definition style_of (css_valid : string -> string -> bool) (b : Browser)
    (n : NodeId) (prop : string) : option string :=
  (fun x => snd (snd x)) <$>
  find (fun x => Nat.eqb (fst x) n && String.eqb (fst (snd x)) prop
                 && css_valid (fst (snd x)) (snd (snd x)))
    (styleLog b).

(** ** Attaching an element *)

(** [parent.appendChild(child)] for a [child] that is not an ancestor of
    [parent]: the child leaves its former parent, if it has one, and
    becomes the last child of [parent]. *)
Definition appendChild (parent child : NodeId) : DOM unit :=
  on_page (modify (fun p =>
    set_document
      (alter (fun e => mkElement (tagName e) (attributes e)
                         (children e ++ [child])) parent
         ((fun e => mkElement (tagName e) (attributes e)
                      (List.filter (fun c => negb (Nat.eqb c child))
                         (children e))) <$> document p)) p)).

(** ** Click listeners *)

(** [el.addEventListener('click', l)]: a listener that is already
    registered on the element is not added again; a closure created for
    the call is a new object and never registered before. *)
Definition addEventListener (n : NodeId) (l : Listener) : DOM unit :=
  modify_dom (fun b =>
    match l with
    | HostListener _ =>
        if bool_decide ((n, l) ∈ clickListeners b) then b
        else set_clickListeners (clickListeners b ++ [(n, l)]) b
    | IndexListener _ _ => set_clickListeners (clickListeners b ++ [(n, l)]) b
    end).

Definition call_listener (target : NodeId) (l : Listener) : HostCall :=
  match l with
  | HostListener f => EventCall f target
  | IndexListener callback index => IndexCall callback index
  end.

(** The listeners registered on [n], in the order of registration. *)
Definition listeners_on (b : Browser) (n : NodeId) : list Listener :=
  snd <$> List.filter (fun x => Nat.eqb (fst x) n) (clickListeners b).

(** The user clicks on [target]: the event is dispatched to the target and
    bubbles through its ancestors; the listeners of each run in the order
    of registration. *)
Definition click (target : NodeId) : DOM unit :=
  modify_dom (fun b =>
    set_hostCalls
      (hostCalls b ++
       flat_map (fun n => call_listener target <$> listeners_on b n)
         (target :: ancestors (length (document (page b)))
                      (document (page b)) target)) b).

(** * The presentation modal and the click handlers *)

(** The template literal of lines 135-140; the texts of the buttons are
    text nodes. *)
Definition MODAL_HTML : list Html :=
  [ Elem "img" [("id", "modalImage")] [];
    Elem "button" [("id", "closeButton")] [];
    Elem "button" [("id", "previousButton")] [];
    Elem "button" [("id", "nextButton")] [] ].

(** Lines 131-186. *)
Definition createModal : DOM unit :=
  modal ← on_page (createElement "div");
  on_page (setAttribute modal "id" "presentationModal");;
  on_page (set_innerHTML_html modal MODAL_HTML);;
  assign_style modal
    [ ("position", "fixed"); ("top", "0"); ("bottom", "0"); ("left", "0");
      ("right", "0"); ("backgroundColor", "grey"); ("display", "none") ];;
  modalImage ← on_page (element_querySelector modal (IdSelector "modalImage"))
               ≫= deref;
  assign_style modalImage
    [ ("position", "absolute"); ("top", "50%"); ("left", "50%");
      ("transform", "translate(-50%, 50%)"); ("maxHeight", "100%");
      ("maxWidth", "100%") ];;
  closeButton ← on_page (element_querySelector modal (IdSelector "closeButton"))
                ≫= deref;
  assign_style closeButton
    [ ("position", "fixed"); ("top", "0"); ("right", "0");
      ("fontFamily", "sans serif"); ("height", "40"); ("width", "40");
      ("backgroundColor", "white") ];;
  previousButton ←
    on_page (element_querySelector modal (IdSelector "previousButton"))
    ≫= deref;
  assign_style previousButton
    [ ("position", "fixed"); ("left", "0"); ("bottom", "0"); ("height", "40") ];;
  nextButton ← on_page (element_querySelector modal (IdSelector "nextButton"))
               ≫= deref;
  assign_style nextButton
    [ ("position", "fixed"); ("right", "0"); ("bottom", "0"); ("height", "40") ];;
  body ← document_querySelector (TypeSelector "body") ≫= deref;
  appendChild body modal.

(** Lines 194-198. *)
Definition initModal (closeBtnCb previousBtnCb nextBtnCb : FunId) : DOM unit :=
  closeButton ← document_querySelector (IdSelector "closeButton") ≫= deref;
  addEventListener closeButton (HostListener closeBtnCb);;
  previousButton ← document_querySelector (IdSelector "previousButton")
                   ≫= deref;
  addEventListener previousButton (HostListener previousBtnCb);;
  nextButton ← document_querySelector (IdSelector "nextButton") ≫= deref;
  addEventListener nextButton (HostListener nextBtnCb).

(** Lines 203-205. *)
Definition closePresentationModal : DOM unit :=
  modal ← document_querySelector (IdSelector "presentationModal") ≫= deref;
  set_style modal "display" "none".

(** Lines 210-212. *)
Definition openPresentationModal : DOM unit :=
  modal ← document_querySelector (IdSelector "presentationModal") ≫= deref;
  set_style modal "display" "block".

(** Lines 218-220. *)
Definition setModalImgSrc (src : string) : DOM unit :=
  modalImage ← document_querySelector (IdSelector "modalImage") ≫= deref;
  on_page (setAttribute modalImage "src" src).

(** Lines 226-233. *)
Definition addImageClickHandlers (callback : FunId) : DOM unit :=
  images ← document_querySelectorAll (InsideId "imagesGrid" "img");
  forEach_dom images (fun image i =>
    let index := i in
    addEventListener image (IndexListener callback index)).

(** ** Example browsers *)

(** A document [html > body] with nothing else. *)
Definition bare_browser : Browser :=
  mkBrowser
    (mkPage (mkWindow 1024 None)
       [mkElement "html" [] [1]; mkElement "body" [] []] [] returning)
    (Some 0) [] [] [].

(** A browser that accepts every style value except a length without a
    unit. *)
Definition css_example (prop value : string) : bool :=
  negb (String.eqb value "40").

(** ** Scenarios *)

(** The host opens ([true]) and closes ([false]) the modal, one call after
    the other. *)
Fixpoint show_hide (ops : list bool) : DOM unit :=
  match ops with
  | [] => mret tt
  | op :: ops' =>
      (if op then openPresentationModal else closePresentationModal);;
      show_hide ops'
  end.

(** A document whose body holds a close button and nothing else. *)
Definition close_only_browser : Browser :=
  mkBrowser
    (mkPage (mkWindow 1024 None)
       [ mkElement "html" [] [1]; mkElement "body" [] [2];
         mkElement "button" [("id", "closeButton")] [] ] [] returning)
    (Some 0) [] [] [].

(** The value of attribute [name] of element [n]. *)
Definition attribute_of (b : Browser) (n : NodeId) (name : string)
  : option string :=
  e ← document (page b) !! n; get_attribute name (attributes e).

(** The listeners [addImageClickHandlers] creates for a list of images,
    the first image having index [i]. *)
Fixpoint index_listeners (callback : FunId) (i : nat) (images : list NodeId)
  : list (NodeId * Listener) :=
  match images with
  | [] => []
  | n :: images' =>
      (n, IndexListener callback i) :: index_listeners callback (S i) images'
  end.

(** Image elements have no children. *)
Definition images_are_leaves (d : list Element) : bool :=
  forallb (fun e =>
             if String.eqb (tagName e) "img"
             then match children e with [] => true | _ :: _ => false end
             else true) d.

(** ** What [createModal] builds *)

(** The five elements of the modal, numbered from 0: the [div], its image
    and its three buttons. *)
Definition MODAL_ELEMENTS : list Element :=
  [ mkElement "div" [("id", "presentationModal")] [1; 2; 3; 4];
    mkElement "img" [("id", "modalImage")] [];
    mkElement "button" [("id", "closeButton")] [];
    mkElement "button" [("id", "previousButton")] [];
    mkElement "button" [("id", "nextButton")] [] ].

(** The style assignments of [createModal] for a modal whose [div] is
    element [m], latest first. *)
Definition MODAL_STYLES (m : NodeId) : list (NodeId * (string * string)) :=
  [ (m + 4, ("height", "40")); (m + 4, ("bottom", "0"));
    (m + 4, ("right", "0")); (m + 4, ("position", "fixed"));
    (m + 3, ("height", "40")); (m + 3, ("bottom", "0"));
    (m + 3, ("left", "0")); (m + 3, ("position", "fixed"));
    (m + 2, ("backgroundColor", "white")); (m + 2, ("width", "40"));
    (m + 2, ("height", "40")); (m + 2, ("fontFamily", "sans serif"));
    (m + 2, ("right", "0")); (m + 2, ("top", "0"));
    (m + 2, ("position", "fixed"));
    (m + 1, ("maxWidth", "100%")); (m + 1, ("maxHeight", "100%"));
    (m + 1, ("transform", "translate(-50%, 50%)"));
    (m + 1, ("left", "50%")); (m + 1, ("top", "50%"));
    (m + 1, ("position", "absolute"));
    (m + 0, ("display", "none")); (m + 0, ("backgroundColor", "grey"));
    (m + 0, ("right", "0")); (m + 0, ("left", "0"));
    (m + 0, ("bottom", "0")); (m + 0, ("top", "0"));
    (m + 0, ("position", "fixed")) ].

(** The document can be read from its root: no child is missing. *)
Definition document_readable (b : Browser) : bool :=
  match documentElement b with
  | Some r =>
      match tree_at (page b) r with
      | Some _ => true
      | None => false
      end
  | None => true
  end.

(** The ids of the modal and of its parts. *)
Definition MODAL_IDS : list string :=
  [ "presentationModal"; "modalImage"; "closeButton"; "previousButton";
    "nextButton" ].

(** No element of the store has one of the [ids]. *)
Definition ids_unused (ids : list string) (d : list Element) : bool :=
  forallb (fun e =>
             match get_attribute "id" (attributes e) with
             | Some v => negb (existsb (String.eqb v) ids)
             | None => true
             end) d.

(** A document that consists of its root element only. *)
Definition bodiless_browser : Browser :=
  mkBrowser
    (mkPage (mkWindow 1024 None) [mkElement "html" [] []] [] returning)
    (Some 0) [] [] [].

(** A list of listeners with one more entry, unless it is there already. *)
Definition add_once (l : list (NodeId * Listener)) (x : NodeId * Listener)
  : list (NodeId * Listener) :=
  if bool_decide (x ∈ l) then l else l ++ [x].

(** The element [n] has no child elements. *)
Definition is_leaf (d : list Element) (n : NodeId) : bool :=
  match d !! n with
  | Some e => match children e with [] => true | _ :: _ => false end
  | None => false
  end.

(** The empty document of [bare_browser] after the host made a large grid
    of the images a to h and appended it to the body. *)
Definition gallery_browser : Browser :=
  browser_after
    (grid ← on_page (generateGrid a_to_h large); appendChild 1 grid)
    bare_browser.

(** * Proofs *)

(** ** Induction on markup *)

Lemma Markup_nested_ind (P : Markup -> Prop) :
  (forall name content, Forall P content -> P (Tag name content)) ->
  forall m, P m.
Proof.
  intros step. fix IH 1. intros [name content]. apply step.
  induction content as [|m ms IHms]; constructor; [apply IH | exact IHms].
Qed.

Lemma build_unfold name content d :
  build (Tag name content) d =
  let r := build_all content (d ++ [mkElement name [] []]) in
  (length d,
   alter (fun e => mkElement (tagName e) (attributes e) (fst r))
     (length d) (snd r)).
Proof. reflexivity. Qed.

(** ** Relocation of the store operations *)

Section Relocation.
Variable d0 : list Element.
Abbreviation k := (length d0).
Abbreviation moved d := (d0 ++ (shift k <$> d)).

Lemma lookup_moved (d : list Element) n :
  moved d !! (k + n) = shift k <$> d !! n.
Proof.
  rewrite lookup_app_r by lia.
  replace (k + n - k) with n by lia. apply list_lookup_fmap.
Qed.

Lemma length_moved (d : list Element) : length (moved d) = k + length d.
Proof. now rewrite length_app, length_fmap. Qed.

Lemma alter_moved (f g : Element -> Element) (d : list Element) n :
  (forall e, shift k (f e) = g (shift k e)) ->
  alter g (k + n) (moved d) = moved (alter f n d).
Proof.
  intros Hfg. rewrite alter_app_r. f_equal. symmetry.
  apply list_fmap_alter, Forall_forall. intros e _. apply Hfg.
Qed.

Lemma build_moved m : forall d,
  build m (moved d) = (k + fst (build m d), moved (snd (build m d))).
Proof.
  induction m as [name content IH] using Markup_nested_ind. intros d.
  assert (Hall : forall d',
    build_all content (moved d') =
    (Nat.add k <$> fst (build_all content d'),
     moved (snd (build_all content d')))).
  { induction IH as [|m ms Hm _ IHms]; intros d'; [reflexivity|].
    cbn [build_all]. rewrite Hm. cbn [fst snd]. rewrite IHms. reflexivity. }
  rewrite !build_unfold. cbn zeta.
  replace (moved d ++ [mkElement name [] []])
    with (moved (d ++ [mkElement name [] []]))
    by (rewrite fmap_app, app_assoc; reflexivity).
  rewrite Hall, length_moved. cbn [fst snd]. f_equal.
  apply alter_moved. reflexivity.
Qed.

Lemma build_all_moved ms : forall d,
  build_all ms (moved d) =
  (Nat.add k <$> fst (build_all ms d), moved (snd (build_all ms d))).
Proof.
  induction ms as [|m ms IH]; intros d; [reflexivity|].
  cbn [build_all]. rewrite build_moved. cbn [fst snd]. rewrite IH.
  reflexivity.
Qed.

Lemma has_tag_moved (d : list Element) tag n :
  has_tag (moved d) tag (k + n) = has_tag d tag n.
Proof. unfold has_tag. rewrite lookup_moved. destruct (d !! n); reflexivity. Qed.

Lemma descendants_moved fuel : forall (d : list Element) n,
  descendants fuel (moved d) (k + n) = Nat.add k <$> descendants fuel d n.
Proof.
  induction fuel as [|fuel IH]; intros d n; [reflexivity|].
  cbn [descendants]. rewrite lookup_moved.
  destruct (d !! n) as [e|]; [|reflexivity]. cbn.
  induction (children e) as [|c cs IHcs]; [reflexivity|].
  cbn. rewrite IH, fmap_app, IHcs. reflexivity.
Qed.

Lemma snapshot_moved fuel : forall (d : list Element) n,
  snapshot fuel (moved d) (k + n) = snapshot fuel d n.
Proof.
  induction fuel as [|fuel IH]; intros d n; [reflexivity|].
  cbn [snapshot]. rewrite lookup_moved.
  destruct (d !! n) as [e|]; [|reflexivity]. cbn.
  replace (mapM (snapshot fuel (moved d)) (Nat.add k <$> children e))
    with (mapM (snapshot fuel d) (children e)); [reflexivity|].
  induction (children e) as [|c cs IHcs]; [reflexivity|].
  cbn. rewrite IH, IHcs. reflexivity.
Qed.

End Relocation.

(** ** Enough fuel

    A walk that read the whole tree below [n] reads the same with any
    larger bound. *)

Lemma snapshot_mono fuel : forall fuel' (d : list Element) n t,
  snapshot fuel d n = Some t -> fuel <= fuel' -> snapshot fuel' d n = Some t.
Proof.
  induction fuel as [|fuel IH]; intros fuel' d n t Hs Hle; [discriminate|].
  destruct fuel' as [|fuel']; [lia|].
  cbn [snapshot] in *. destruct (d !! n) as [e|]; [|discriminate].
  cbn in *. destruct (mapM (snapshot fuel d) (children e)) as [kids|] eqn:Hk;
    [|discriminate].
  replace (mapM (snapshot fuel' d) (children e)) with (Some kids); [exact Hs|].
  symmetry. apply mapM_Some. apply mapM_Some in Hk.
  eapply Forall2_impl; [exact Hk|]. cbn. intros c t' Hc. apply IH; [exact Hc|lia].
Qed.

Lemma descendants_stable fuel : forall fuel' (d : list Element) n t,
  snapshot fuel d n = Some t -> fuel <= fuel' ->
  descendants fuel' d n = descendants fuel d n.
Proof.
  induction fuel as [|fuel IH]; intros fuel' d n t Hs Hle; [discriminate|].
  destruct fuel' as [|fuel']; [lia|].
  cbn [snapshot descendants] in *. destruct (d !! n) as [e|]; [|reflexivity].
  cbn in Hs. destruct (mapM (snapshot fuel d) (children e)) as [kids|] eqn:Hk;
    [|discriminate].
  apply mapM_Some in Hk. clear Hs.
  induction Hk as [|c t' cs ts Hc _ IHcs]; [reflexivity|].
  cbn. rewrite IHcs. f_equal. f_equal. apply (IH _ _ _ t'); [exact Hc|lia].
Qed.

(** ** Relocation of the page computations *)

Section RelocationJS.
Variable d0 : list Element.
Abbreviation k0 := (length d0).

Lemma relocates_bind {A B} (f : A -> A) (g : B -> B)
    (m' m : JS A) (c' c : A -> JS B) p :
  relocates d0 f m' m p ->
  (forall a, fst (m p) = Return a -> relocates d0 g (c' (f a)) (c a) (snd (m p))) ->
  relocates d0 g (m' ≫= c') (m ≫= c) p.
Proof.
  unfold relocates, mbind, JS_bind. intros Hm Hc. rewrite Hm.
  destruct (m p) as [[a|e] p']; cbn in *; [|reflexivity].
  apply Hc. reflexivity.
Qed.

Lemma createElement_relocates tag p :
  relocates d0 (Nat.add k0) (createElement tag) (createElement tag) p.
Proof.
  unfold relocates, createElement, graft. cbn.
  rewrite length_app, length_fmap, fmap_app, app_assoc. reflexivity.
Qed.

Lemma setAttribute_relocates n name value p :
  relocates d0 id (setAttribute (k0 + n) name value) (setAttribute n name value) p.
Proof.
  unfold relocates, setAttribute, modify, graft, set_document. cbn.
  do 2 f_equal. apply alter_moved. reflexivity.
Qed.

Lemma set_innerHTML_relocates n html p :
  relocates d0 id (set_innerHTML (k0 + n) html) (set_innerHTML n html) p.
Proof.
  unfold relocates, set_innerHTML, modify, graft, set_document. cbn. f_equal.
  rewrite lookup_moved. destruct (document p !! n) as [e|]; [|reflexivity].
  cbn. rewrite build_all_moved. cbn. f_equal.
  apply alter_moved. reflexivity.
Qed.

Lemma querySelectorAll_relocates n tag p t :
  tree_at p n = Some t ->
  relocates d0 (fmap (Nat.add k0))
    (querySelectorAll (k0 + n) tag) (querySelectorAll n tag) p.
Proof.
  unfold tree_at. intros Ht.
  unfold relocates, querySelectorAll, gets, graft. cbn. f_equal. f_equal.
  rewrite length_moved, descendants_moved.
  rewrite (descendants_stable _ (k0 + length (document p)) _ _ _ Ht) by lia.
  induction (descendants _ _ _) as [|c cs IH]; [reflexivity|].
  cbn. rewrite has_tag_moved, IH. destruct (has_tag _ _ c); reflexivity.
Qed.

Lemma forEach_setAttribute_relocates name (value : nat -> string) ns :
  forall i p,
  relocates d0 id
    (forEach_from i (Nat.add k0 <$> ns)
       (fun n j => setAttribute n name (value j)))
    (forEach_from i ns (fun n j => setAttribute n name (value j))) p.
Proof.
  induction ns as [|n ns IH]; intros i p; [reflexivity|].
  cbn [forEach_from fmap list_fmap].
  eapply (relocates_bind id id); [apply setAttribute_relocates|].
  intros _ _. apply IH.
Qed.

End RelocationJS.

(** ** [generateGrid] on an arbitrary page

    Run on a page whose store is [d0], [generateGrid] does what it does on
    an empty store, moved behind [d0]. *)

Lemma generateGrid_relocates d0 imageUrls size w cs ho :
  relocates d0 (Nat.add (length d0))
    (generateGrid imageUrls size) (generateGrid imageUrls size)
    (mkPage w [] cs ho).
Proof.
  unfold generateGrid.
  destruct (negb (length imageUrls =? 8)%nat); [reflexivity|].
  eapply (relocates_bind d0 (Nat.add (length d0)));
    [apply createElement_relocates|].
  cbn. intros imagesGrid [= <-].
  eapply (relocates_bind d0 id); [apply setAttribute_relocates|].
  intros _ _.
  eapply (relocates_bind d0 id).
  { destruct size; cbn [bool_decide decide_rel]; apply set_innerHTML_relocates. }
  intros _ _.
  eapply (relocates_bind d0 (fmap (Nat.add (length d0)))).
  { destruct size; eapply querySelectorAll_relocates; vm_compute; reflexivity. }
  intros images Himages.
  eapply (relocates_bind d0 id).
  { apply forEach_setAttribute_relocates. }
  intros _ _. reflexivity.
Qed.

(** ** Framing: a tree that was read completely does not depend on what
    is stored behind it *)

Lemma snapshot_app fuel : forall (d l : list Element) n t,
  snapshot fuel d n = Some t -> snapshot fuel (d ++ l) n = Some t.
Proof.
  induction fuel as [|fuel IH]; intros d l n t Hs; [discriminate|].
  cbn [snapshot] in *. destruct (d !! n) as [e|] eqn:He; [|discriminate].
  rewrite (lookup_app_l_Some _ _ _ _ He). cbn in *.
  destruct (mapM (snapshot fuel d) (children e)) as [kids|] eqn:Hk;
    [|discriminate].
  replace (mapM (snapshot fuel (d ++ l)) (children e)) with (Some kids);
    [exact Hs|].
  symmetry. apply mapM_Some. apply mapM_Some in Hk.
  eapply Forall2_impl; [exact Hk|]. cbn. intros c t' Hc. now apply IH.
Qed.

Lemma descendants_app fuel : forall (d l : list Element) n t,
  snapshot fuel d n = Some t ->
  descendants fuel (d ++ l) n = descendants fuel d n.
Proof.
  induction fuel as [|fuel IH]; intros d l n t Hs; [discriminate|].
  cbn [snapshot descendants] in *.
  destruct (d !! n) as [e|] eqn:He; [|discriminate].
  rewrite (lookup_app_l_Some _ _ _ _ He). cbn in Hs.
  destruct (mapM (snapshot fuel d) (children e)) as [kids|] eqn:Hk;
    [|discriminate].
  apply mapM_Some in Hk. clear Hs He.
  induction Hk as [|c t' cs ts Hc _ IHcs]; [reflexivity|].
  cbn. rewrite IHcs. f_equal. f_equal. now apply (IH _ _ _ t').
Qed.

Lemma tree_at_extend p p' l n t :
  document p' = document p ++ l ->
  tree_at p n = Some t -> tree_at p' n = Some t.
Proof.
  unfold tree_at. intros -> Ht. apply snapshot_app.
  eapply snapshot_mono; [exact Ht|]. rewrite length_app. lia.
Qed.

Lemma nodes_at_extend p p' l n t :
  document p' = document p ++ l ->
  tree_at p n = Some t -> nodes_at p' n = nodes_at p n.
Proof.
  unfold tree_at, nodes_at. intros -> Ht. f_equal.
  assert (Hle : length (document p) <= length (document p ++ l))
    by (rewrite length_app; lia).
  rewrite (descendants_app _ _ l _ t (snapshot_mono _ _ _ _ _ Ht Hle)).
  exact (descendants_stable _ _ _ _ _ Ht Hle).
Qed.

Lemma tree_at_graft d0 p n t :
  tree_at p n = Some t -> tree_at (graft d0 p) (length d0 + n) = Some t.
Proof.
  unfold tree_at, graft. cbn. intros Ht. rewrite snapshot_moved.
  eapply snapshot_mono; [exact Ht|]. rewrite length_moved. lia.
Qed.

Lemma nodes_at_graft d0 p n t :
  tree_at p n = Some t ->
  nodes_at (graft d0 p) (length d0 + n) = Nat.add (length d0) <$> nodes_at p n.
Proof.
  unfold tree_at, nodes_at, graft. cbn. intros Ht.
  rewrite descendants_moved, length_moved. do 2 f_equal.
  apply (descendants_stable _ _ _ _ _ Ht). lia.
Qed.

(** ** What [generateGrid] returns *)

Lemma generateGrid_run imageUrls size p :
  generateGrid imageUrls size p =
  let r := generateGrid imageUrls size (set_document [] p) in
  (match fst r with
   | Return n => Return (length (document p) + n)
   | Throw e => Throw e
   end, graft (document p) (snd r)).
Proof.
  destruct p as [w d cs ho].
  pose proof (generateGrid_relocates d imageUrls size w cs ho) as H.
  unfold relocates, graft, set_document in H. cbn in H.
  rewrite app_nil_r in H. exact H.
Qed.

Lemma generateGrid_fresh imageUrls size w cs ho :
  length imageUrls = 8 ->
  exists p',
    generateGrid imageUrls size (mkPage w [] cs ho) = (Return 0, p') /\
    tree_at p' 0 =
      Some (grid_tree (fst (spec_shape size)) (snd (spec_shape size)) imageUrls) /\
    nodes_at p' 0 = seq 0 (length (document p')) /\
    0 < length (document p') /\
    window p' = w /\ calls p' = cs /\ host p' = ho.
Proof.
  intros Hlen.
  destruct imageUrls as [|u0 [|u1 [|u2 [|u3 [|u4 [|u5 [|u6 [|u7 [|]]]]]]]]];
    try discriminate Hlen.
  exists (snd (generateGrid [u0; u1; u2; u3; u4; u5; u6; u7] size
                 (mkPage w [] cs ho))).
  destruct size; vm_compute; (repeat split); lia.
Qed.

Lemma generateGrid_graft imageUrls size p :
  length imageUrls = 8 ->
  exists pe,
    generateGrid imageUrls size p =
      (Return (length (document p)), graft (document p) pe) /\
    tree_at pe 0 =
      Some (grid_tree (fst (spec_shape size)) (snd (spec_shape size)) imageUrls) /\
    nodes_at pe 0 = seq 0 (length (document pe)) /\
    0 < length (document pe) /\
    window pe = window p /\ calls pe = calls p /\ host pe = host p.
Proof.
  intros Hlen.
  destruct (generateGrid_fresh imageUrls size (window p) (calls p) (host p)
              Hlen) as (pe & Hrun & Hfacts).
  exists pe. split; [|exact Hfacts].
  rewrite generateGrid_run. unfold set_document. cbn zeta.
  rewrite Hrun. cbn [fst snd]. now rewrite Nat.add_0_r.
Qed.

(** The grid at the root of a grafted store. *)
Lemma graft_root d0 pe t :
  tree_at pe 0 = Some t ->
  nodes_at pe 0 = seq 0 (length (document pe)) ->
  tree_at (graft d0 pe) (length d0) = Some t /\
  nodes_at (graft d0 pe) (length d0) = seq (length d0) (length (document pe)).
Proof.
  intros Htree Hnodes. split.
  - rewrite <- (Nat.add_0_r (length d0)) at 1. now apply tree_at_graft.
  - rewrite <- (Nat.add_0_r (length d0)) at 1.
    rewrite (nodes_at_graft _ _ _ _ Htree), Hnodes.
    rewrite fmap_add_seq, Nat.add_0_r. reflexivity.
Qed.

Lemma generateGrid_returns imageUrls size p :
  length imageUrls = 8 ->
  exists p' l,
    generateGrid imageUrls size p = (Return (length (document p)), p') /\
    document p' = document p ++ l /\ l <> [] /\
    window p' = window p /\ calls p' = calls p /\
    tree_at p' (length (document p)) =
      Some (grid_tree (fst (spec_shape size)) (snd (spec_shape size)) imageUrls) /\
    nodes_at p' (length (document p)) = seq (length (document p)) (length l) /\
    host p' = host p.
Proof.
  intros Hlen.
  destruct (generateGrid_graft imageUrls size p Hlen)
    as (pe & Hrun & Htree & Hnodes & Hpos & Hw & Hc & Hh).
  destruct (graft_root (document p) pe _ Htree Hnodes) as [Ht Hn].
  exists (graft (document p) pe), (shift (length (document p)) <$> document pe).
  rewrite length_fmap. repeat split; try assumption.
  intros E. apply (f_equal length) in E. rewrite length_fmap in E.
  cbn in E. lia.
Qed.

(** ** The order of binary64 numbers *)

Section FloatOrder.
Local Open Scope float_scope.

Lemma SFcompare_antisym x y : SFcompare y x = CompOpp <$> SFcompare x y.
Proof.
  destruct x as [sx|sx| |sx mx ex], y as [sy|sy| |sy my ey]; cbn;
    try reflexivity;
    try (destruct sx; reflexivity); try (destruct sy; reflexivity);
    try (destruct sx, sy; reflexivity).
  destruct sx, sy; try reflexivity; f_equal;
    rewrite (Z.compare_antisym ex ey);
    destruct (ex ?= ey)%Z; cbn; try reflexivity;
    rewrite (Pos.compare_cont_antisym mx my Eq); cbn;
    now destruct (Pos.compare_cont Eq mx my).
Qed.

Lemma ltb_not_leb x y : (x <? y) = true -> (y <=? x) = false.
Proof.
  rewrite ltb_spec, leb_spec. unfold SFltb, SFleb.
  rewrite (SFcompare_antisym (Prim2SF x) (Prim2SF y)).
  destruct (SFcompare (Prim2SF x) (Prim2SF y)) as [[]|]; cbn; congruence.
Qed.

Lemma ltb_800_600 w : (800 <? w) = true -> (600 <? w) = true.
Proof.
  rewrite !ltb_spec. unfold SFltb.
  change (Prim2SF 800) with (S754_finite false 7036874417766400 (-43)).
  change (Prim2SF 600) with (S754_finite false 5277655813324800 (-43)).
  destruct (Prim2SF w) as [s|s| |s m e];
    cbn -[Z.compare Pos.compare_cont]; try congruence.
  destruct s; [congruence|].
  destruct (-43 ?= e)%Z; try congruence.
  change (Pos.compare_cont Eq ?a ?b) with (Pos.compare a b).
  destruct (Pos.compare_spec 7036874417766400 m) as [H|H|H];
    try discriminate.
  intros _.
  destruct (Pos.compare_spec 5277655813324800 m) as [H'|H'|H'];
    [subst m|reflexivity|pose proof (Pos.lt_trans _ _ _ H H') as H''];
    discriminate.
Qed.

Lemma ltb_0_leb_600 w : (w <? 0) = true -> (w <=? 600) = true.
Proof.
  rewrite ltb_spec, leb_spec. unfold SFltb, SFleb.
  change (Prim2SF 0) with (S754_zero false).
  change (Prim2SF 600) with (S754_finite false 5277655813324800 (-43)).
  destruct (Prim2SF w) as [[]|[]| |[] m e]; intros H;
    first [discriminate H | reflexivity].
Qed.

End FloatOrder.

(** ** The size classifier *)

(** C2: the classifier is a total function of the width; a width of at
    most 600 is small, a width above 600 and at most 800 is medium, a
    width above 800 is large; 600 itself is small and 800 itself is
    medium. *)
Theorem getViewportSizeName_bands (w : float) :
  ((w <=? 600)%float = true -> getViewportSizeName w = small) /\
  ((600 <? w)%float = true -> (w <=? 800)%float = true ->
     getViewportSizeName w = medium) /\
  ((800 <? w)%float = true -> getViewportSizeName w = large) /\
  getViewportSizeName 600 = small /\
  getViewportSizeName 800 = medium.
Proof.
  unfold getViewportSizeName. repeat split.
  - intros ->. reflexivity.
  - intros Hlt Hle. now rewrite (ltb_not_leb _ _ Hlt), Hle.
  - intros Hlt.
    rewrite (ltb_not_leb _ _ (ltb_800_600 _ Hlt)), (ltb_not_leb _ _ Hlt).
    reflexivity.
Qed.

Lemma getViewportSizeName_bands_witness :
  getViewportSizeName 550 = small /\
  getViewportSizeName 700.25 = medium /\
  getViewportSizeName 900 = large.
Proof.
  split; [|split].
  - exact (proj1 (getViewportSizeName_bands 550) eq_refl).
  - exact (proj1 (proj2 (getViewportSizeName_bands 700.25)) eq_refl eq_refl).
  - exact (proj1 (proj2 (proj2 (getViewportSizeName_bands 900))) eq_refl).
Defined.

(** C10: every number has exactly one size class, nothing is rejected:
    any width of at most 600 is small, in particular every negative
    width, zero, and widths that are not integers. *)
Theorem getViewportSizeName_total (w : float) :
  (exists! c, getViewportSizeName w = c) /\
  ((w <=? 600)%float = true -> getViewportSizeName w = small) /\
  ((w <? 0)%float = true -> getViewportSizeName w = small) /\
  getViewportSizeName 0 = small /\
  getViewportSizeName (-0) = small /\
  getViewportSizeName (-1) = small /\
  getViewportSizeName (-1024.75) = small /\
  getViewportSizeName 599.5 = small /\
  getViewportSizeName 600.5 = medium /\
  getViewportSizeName 800.5 = large /\
  getViewportSizeName neg_infinity = small.
Proof.
  split; [exists (getViewportSizeName w); split; [reflexivity|now intros c <-]|].
  split; [unfold getViewportSizeName; now intros ->|].
  split; [intros Hneg; unfold getViewportSizeName;
          now rewrite (ltb_0_leb_600 _ Hneg)|].
  repeat split.
Qed.

Lemma getViewportSizeName_total_witness :
  getViewportSizeName (-320.5) = small.
Proof.
  exact (proj1 (proj2 (proj2 (getViewportSizeName_total (-320.5)))) eq_refl).
Defined.

(** ** The viewport watcher *)

(** A registration calls the function first (line 28) and installs the
    listener only when that call returned (line 30). *)
Lemma onSizeClassChange_function f p :
  onSizeClassChange (JsFunction f) p =
  let c := getViewportSizeName (innerWidth (window p)) in
  match host p f c (calls p) with
  | None =>
      (Return tt,
       mkPage (mkWindow (innerWidth (window p))
                 (Some (mkResizeHandler (JsFunction f) c)))
         (document p) (calls p ++ [mkCall f c]) (host p))
  | Some e =>
      (Throw e,
       mkPage (window p) (document p) (calls p ++ [mkCall f c]) (host p))
  end.
Proof.
  unfold onSizeClassChange, call, mbind, JS_bind, gets, modify, set_onresize.
  cbn.
  destruct (host p f (getViewportSizeName (innerWidth (window p))) (calls p));
    reflexivity.
Qed.

(** The page after a registration that returned normally. *)
Lemma registered_normally f p :
  completion (onSizeClassChange (JsFunction f)) p = Return tt ->
  registered f p =
  mkPage (mkWindow (innerWidth (window p))
            (Some (mkResizeHandler (JsFunction f)
                     (getViewportSizeName (innerWidth (window p))))))
    (document p)
    (calls p ++ [mkCall f (getViewportSizeName (innerWidth (window p)))])
    (host p).
Proof.
  unfold completion, registered, page_after.
  rewrite onSizeClassChange_function. cbn zeta.
  destruct (host p f _ (calls p)); [discriminate|reflexivity].
Qed.

(** The page after a registration whose callback threw. *)
Lemma registered_thrown f p e :
  completion (onSizeClassChange (JsFunction f)) p = Throw e ->
  registered f p =
  mkPage (window p) (document p)
    (calls p ++ [mkCall f (getViewportSizeName (innerWidth (window p)))])
    (host p).
Proof.
  unfold completion, registered, page_after.
  rewrite onSizeClassChange_function. cbn zeta.
  destruct (host p f _ (calls p)); [reflexivity|discriminate].
Qed.

Lemma typeof_function v :
  typeof v = "function" -> exists f, v = JsFunction f.
Proof. destruct v; try discriminate. intros _. now eexists. Qed.

Lemma onSizeClassChange_not_function v p :
  typeof v <> "function" ->
  onSizeClassChange v p =
  (Throw (TypeError
            "Callback parameter has to be called and of type function."), p).
Proof.
  intros Hv. unfold onSizeClassChange.
  destruct (String.eqb_spec (typeof v) "function") as [E|_]; [contradiction|].
  reflexivity.
Qed.

(** One resize event seen by the closure of [f].  The closure notes the
    new class (line 33) before it calls [f] (line 34), and what [f] throws
    ends at the browser: the page is the same whether [f] returns or
    throws. *)
Lemma resize_watching f current w p :
  watching f current p ->
  resize w p =
  let c := getViewportSizeName w in
  (Return tt,
   mkPage (mkWindow w (Some (mkResizeHandler (JsFunction f) c)))
     (document p)
     (calls p ++ if decide (c = current) then [] else [mkCall f c])
     (host p)).
Proof.
  unfold watching. destruct p as [[iw h] d cs ho]. cbn. intros ->.
  unfold resize, reported, resize_listener, call, mbind, JS_bind, modify,
    gets, set_onresize.
  cbn.
  destruct (decide (getViewportSizeName w = current)) as [E|Hne].
  - rewrite bool_decide_false by (intros Hn; now apply Hn).
    rewrite E, app_nil_r. reflexivity.
  - rewrite bool_decide_true by exact Hne. cbn.
    destruct (ho f (getViewportSizeName w) cs); reflexivity.
Qed.

(** A sequence of resize events: the calls made are the transitions. *)
Lemma resizes_watching f ws : forall current p,
  watching f current p ->
  exists p',
    resizes ws p = (Return tt, p') /\
    watching f (default current (last (transitions current ws))) p' /\
    document p' = document p /\
    calls p' = calls p ++ (mkCall f <$> transitions current ws).
Proof.
  induction ws as [|w ws IH]; intros current p Hp.
  - exists p. cbn. rewrite app_nil_r. auto.
  - cbn [resizes transitions]. unfold mbind, JS_bind.
    rewrite (resize_watching f current w p Hp). cbn zeta.
    set (c := getViewportSizeName w).
    set (p1 := mkPage _ _ _ _).
    destruct (IH c p1 eq_refl) as (p' & Hrun & Hw & Hd & Hc).
    exists p'. rewrite Hrun. split; [reflexivity|].
    subst p1. cbn in Hd, Hc.
    destruct (decide (c = current)) as [<-|Hne].
    + rewrite app_nil_r in Hc. auto.
    + split; [|split; [exact Hd|]].
      * rewrite last_cons.
        destruct (last (transitions c ws)); exact Hw.
      * rewrite Hc, <- app_assoc. reflexivity.
Qed.

Lemma transitions_distinct ws : forall current,
  adjacent_distinct (current :: transitions current ws) = true.
Proof.
  induction ws as [|w ws IH]; intros current; [reflexivity|].
  cbn [transitions].
  destruct (decide (getViewportSizeName w = current)) as [E|Hne]; [apply IH|].
  specialize (IH (getViewportSizeName w)).
  cbn [adjacent_distinct] in *. rewrite IH.
  rewrite bool_decide_true by congruence. reflexivity.
Qed.

(** The watcher on a concrete run: registration at width 480, then five
    resize events. *)
Example watcher_run :
  (onSizeClassChange (JsFunction 1);;
   resizes [500; 550; 700; 750; 900]%float) (blank_page 480) =
  (Return tt,
   mkPage (mkWindow 900 (Some (mkResizeHandler (JsFunction 1) large))) []
     [mkCall 1 small; mkCall 1 medium; mkCall 1 large] returning).
Proof. reflexivity. Qed.

(** The same run with a function that returns from its first call and
    throws from every later one: the calls are the same. *)
Example watcher_run_throwing :
  (onSizeClassChange (JsFunction 1);;
   resizes [500; 550; 700; 750; 900]%float) (flaky_page 480 1) =
  (Return tt,
   mkPage (mkWindow 900 (Some (mkResizeHandler (JsFunction 1) large))) []
     [mkCall 1 small; mkCall 1 medium; mkCall 1 large] (throwing_later 1)).
Proof. reflexivity. Qed.

(** A second registration whose function throws: the function was called,
    the listener of the first registration stays, and the next resize
    calls the first function. *)
Example watcher_run_second_throws :
  calls (page_after (resizes [1000]%float)
           (registered_again 1 2 [] (fragile_page 700 2))) =
  [mkCall 1 medium; mkCall 2 medium; mkCall 1 large].
Proof. reflexivity. Qed.

(** A number that compares with nothing is large: both tests fail. *)
Example getViewportSizeName_nan : getViewportSizeName nan = large.
Proof. reflexivity. Qed.

Lemma bind_Return {A B} (m : JS A) (c : A -> JS B) p a p' :
  m p = (Return a, p') -> (m ≫= c) p = c a p'.
Proof. unfold mbind, JS_bind. now intros ->. Qed.

Lemma last_calls_transitions f current ws (cs : list Call) :
  last ((cs ++ [mkCall f current]) ++ (mkCall f <$> transitions current ws)) =
  Some (mkCall f (default current (last (transitions current ws)))).
Proof.
  destruct (transitions current ws) as [|c l] eqn:E using rev_ind.
  - cbn. rewrite app_nil_r. apply last_snoc.
  - rewrite fmap_app, app_assoc. cbn. now rewrite !last_snoc.
Qed.

(** C5: once registered, the watcher makes no redundant call.  A resize
    event calls the callback only when the class of the new width differs
    from the class the closure remembers, and that class is always the one
    passed in the latest call; so no two consecutive calls carry the same
    class.  Starting in the small band, the widths 500, 550, 700, 750, 900
    cause exactly two calls: medium (at 700) and large (at 900).  The
    function is registered when its registration returned normally; what
    it does in later calls, returning or throwing, makes no difference. *)
Theorem onSizeClassChange_no_redundant_call (f : FunId) (p : Page) :
  (forall q current w,
     watching f current q ->
     calls (page_after (resize w) q) =
     calls q ++ (if decide (getViewportSizeName w = current) then []
                 else [mkCall f (getViewportSizeName w)])) /\
  (completion (onSizeClassChange (JsFunction f)) p = Return tt ->
   (forall ws,
      completion (resizes ws) (registered f p) = Return tt /\
      calls (page_after (resizes ws) (registered f p)) =
        calls p ++
        (mkCall f <$>
           getViewportSizeName (innerWidth (window p)) ::
           transitions (getViewportSizeName (innerWidth (window p))) ws) /\
      adjacent_distinct
        (getViewportSizeName (innerWidth (window p)) ::
         transitions (getViewportSizeName (innerWidth (window p))) ws) = true /\
      exists current,
        watching f current (page_after (resizes ws) (registered f p)) /\
        last (calls (page_after (resizes ws) (registered f p)))
          = Some (mkCall f current)) /\
   ((innerWidth (window p) <=? 600)%float = true ->
      calls (page_after (resizes [500; 550; 700; 750; 900]%float)
               (registered f p)) =
      calls (registered f p) ++ [mkCall f medium; mkCall f large])).
Proof.
  split.
  { intros q current w Hq. unfold page_after.
    now rewrite (resize_watching f current w q Hq). }
  intros Hreg. rewrite (registered_normally f p Hreg).
  unfold page_after, completion.
  set (c0 := getViewportSizeName (innerWidth (window p))).
  set (p1 := mkPage _ _ _ _).
  assert (Hp1 : watching f c0 p1) by reflexivity.
  split.
  - intros ws.
    destruct (resizes_watching f ws c0 p1 Hp1) as (p' & Hrun & Hw & _ & Hc).
    rewrite Hrun. cbn [fst snd]. split; [reflexivity|].
    split; [rewrite Hc; subst p1; cbn; now rewrite <- app_assoc|].
    split; [apply transitions_distinct|].
    eexists. split; [exact Hw|].
    rewrite Hc. subst p1. cbn [calls]. apply last_calls_transitions.
  - intros Hsmall.
    assert (Hc0 : c0 = small)
      by (subst c0; unfold getViewportSizeName; now rewrite Hsmall).
    destruct (resizes_watching f [500; 550; 700; 750; 900]%float c0 p1 Hp1)
      as (p' & Hrun & _ & _ & Hc).
    rewrite Hrun. cbn [snd]. rewrite Hc, Hc0. reflexivity.
Qed.

Lemma onSizeClassChange_no_redundant_call_witness :
  calls (page_after (resizes [500; 550; 700; 750; 900]%float)
           (registered 1 (blank_page 480))) =
  [mkCall 1 small; mkCall 1 medium; mkCall 1 large].
Proof.
  exact (proj2 (proj2 (onSizeClassChange_no_redundant_call 1 (blank_page 480))
                  eq_refl)
           eq_refl).
Defined.

(** C6: registering a function calls it exactly once, at once, with the
    class of the current viewport width, whatever the page went through
    before.  The registration returns normally when that call does, and
    passes on what the call throws. *)
Theorem onSizeClassChange_calls_once (v : JsValue) (p : Page) :
  typeof v = "function" ->
  exists f,
    v = JsFunction f /\
    completion (onSizeClassChange v) p =
      match host p f (getViewportSizeName (innerWidth (window p))) (calls p)
      with
      | None => Return tt
      | Some e => Throw e
      end /\
    calls (page_after (onSizeClassChange v) p) =
    calls p ++ [mkCall f (getViewportSizeName (innerWidth (window p)))].
Proof.
  intros Hv. destruct (typeof_function v Hv) as [f ->]. exists f.
  unfold completion, page_after. rewrite onSizeClassChange_function.
  cbn zeta.
  destruct (host p f _ (calls p)); repeat split.
Qed.

Lemma onSizeClassChange_calls_once_witness :
  exists f,
    JsFunction 2 = JsFunction f /\
    completion (onSizeClassChange (JsFunction 2)) busy_page = Return tt /\
    calls (page_after (onSizeClassChange (JsFunction 2)) busy_page) =
    calls busy_page ++ [mkCall f large].
Proof.
  exact (onSizeClassChange_calls_once (JsFunction 2) busy_page eq_refl).
Defined.

(** C8: the page has one resize listener.  After [f] and later [g] were
    registered, the listener is the closure of [g], and whatever resize
    events follow call [g] only.  [g] is registered when its registration
    returned normally: [onSizeClassChange] calls the function before it
    assigns the listener. *)
Theorem onSizeClassChange_last_registration_wins
    (f g : FunId) (ws1 ws2 : list float) (p : Page) :
  completion (onSizeClassChange (JsFunction g))
    (page_after (resizes ws1) (registered f p)) = Return tt ->
  exists current,
    watching g current (registered_again f g ws1 p) /\
    completion (resizes ws2) (registered_again f g ws1 p) = Return tt /\
    calls (page_after (resizes ws2) (registered_again f g ws1 p)) =
    calls (registered_again f g ws1 p) ++
    (mkCall g <$> transitions current ws2).
Proof.
  intros Hreg. unfold registered_again.
  set (q := page_after (resizes ws1) (registered f p)) in *.
  change (page_after (onSizeClassChange (JsFunction g)) q)
    with (registered g q).
  rewrite (registered_normally g q Hreg).
  set (p2 := mkPage _ _ _ _).
  exists (getViewportSizeName (innerWidth (window q))).
  destruct (resizes_watching g ws2 _ p2 eq_refl) as (p2' & Hrun2 & _ & _ & Hc).
  unfold completion, page_after. rewrite Hrun2. repeat split. exact Hc.
Qed.

Lemma onSizeClassChange_last_registration_wins_witness :
  exists current,
    watching 2 current (registered_again 1 2 [700]%float (blank_page 480)) /\
    completion (resizes [900]%float)
      (registered_again 1 2 [700]%float (blank_page 480)) = Return tt /\
    calls (page_after (resizes [900]%float)
             (registered_again 1 2 [700]%float (blank_page 480))) =
    calls (registered_again 1 2 [700]%float (blank_page 480)) ++
    (mkCall 2 <$> transitions current [900]%float).
Proof.
  exact (onSizeClassChange_last_registration_wins 1 2 [700]%float [900]%float
           (blank_page 480) eq_refl).
Defined.

(** ** [generateGrid]: errors *)

Lemma generateGrid_wrong_length imageUrls size p :
  length imageUrls <> 8 ->
  generateGrid imageUrls size p =
  (Throw (RangeError
            "The list of image urls has to contain exactly 8 elements."), p).
Proof.
  intros Hlen. unfold generateGrid.
  destruct (Nat.eqb_spec (length imageUrls) 8) as [E|_]; [contradiction|].
  reflexivity.
Qed.

(** C3: [generateGrid] throws a [RangeError] exactly when the list does
    not have 8 elements (it throws nothing else), and then it has created
    no element: the page is the page before the call. *)
Theorem generateGrid_RangeError_iff
    (imageUrls : list string) (size : SizeClass) (p : Page) :
  ((exists message,
      completion (generateGrid imageUrls size) p = Throw (RangeError message))
   <-> length imageUrls <> 8) /\
  (forall e,
     completion (generateGrid imageUrls size) p = Throw e ->
     length imageUrls <> 8) /\
  (length imageUrls <> 8 ->
   completion (generateGrid imageUrls size) p =
     Throw (RangeError
              "The list of image urls has to contain exactly 8 elements.") /\
   page_after (generateGrid imageUrls size) p = p).
Proof.
  unfold completion, page_after.
  assert (Hthrow : forall e,
            fst (generateGrid imageUrls size p) = Throw e ->
            length imageUrls <> 8).
  { intros e He Hlen.
    destruct (generateGrid_returns imageUrls size p Hlen) as (p' & l & Hrun & _).
    rewrite Hrun in He. discriminate He. }
  split; [split|split].
  - intros [message He]. exact (Hthrow _ He).
  - intros Hlen. rewrite (generateGrid_wrong_length _ _ _ Hlen). now eexists.
  - exact Hthrow.
  - intros Hlen. rewrite (generateGrid_wrong_length _ _ _ Hlen). now split.
Qed.

Lemma generateGrid_RangeError_iff_witness :
  (completion (generateGrid ["a"; "b"; "c"; "d"; "e"; "f"; "g"] medium) busy_page
     = Throw (RangeError
                "The list of image urls has to contain exactly 8 elements.") /\
   page_after (generateGrid ["a"; "b"; "c"; "d"; "e"; "f"; "g"] medium) busy_page
     = busy_page) /\
  (completion (generateGrid (a_to_h ++ ["i"]) medium) busy_page
     = Throw (RangeError
                "The list of image urls has to contain exactly 8 elements.") /\
   page_after (generateGrid (a_to_h ++ ["i"]) medium) busy_page = busy_page).
Proof.
  split.
  - exact (proj2 (proj2 (generateGrid_RangeError_iff
                           ["a"; "b"; "c"; "d"; "e"; "f"; "g"] medium busy_page))
             ltac:(simpl; lia)).
  - exact (proj2 (proj2 (generateGrid_RangeError_iff
                           (a_to_h ++ ["i"]) medium busy_page))
             ltac:(simpl; lia)).
Defined.

(** C7: the two errors the library raises leave the page as it was: a
    registration with a value that is not a function throws with the
    resize listener, the element store and the call log unchanged, and so
    does [generateGrid] with a list that does not have 8 elements. *)
Theorem errors_leave_page_unchanged
    (v : JsValue) (imageUrls : list string) (size : SizeClass) (p : Page) :
  (typeof v <> "function" ->
   onSizeClassChange v p =
   (Throw (TypeError
             "Callback parameter has to be called and of type function."), p)) /\
  (length imageUrls <> 8 ->
   generateGrid imageUrls size p =
   (Throw (RangeError
             "The list of image urls has to contain exactly 8 elements."), p)).
Proof.
  split.
  - apply onSizeClassChange_not_function.
  - apply generateGrid_wrong_length.
Qed.

Lemma errors_leave_page_unchanged_witness :
  onSizeClassChange (JsString "resize") busy_page =
    (Throw (TypeError
              "Callback parameter has to be called and of type function."),
     busy_page) /\
  generateGrid ["a"; "b"; "c"] small busy_page =
    (Throw (RangeError
              "The list of image urls has to contain exactly 8 elements."),
     busy_page).
Proof.
  split.
  - exact (proj1 (errors_leave_page_unchanged
                    (JsString "resize") [] small busy_page)
             ltac:(discriminate)).
  - exact (proj2 (errors_leave_page_unchanged
                    JsNull ["a"; "b"; "c"] small busy_page)
             ltac:(simpl; lia)).
Defined.

(** ** [generateGrid]: the grid *)

(** The store after one call on an empty page, size large: the table, the
    implied [tbody], two rows, and in each row four cells with their
    image. *)
Example generateGrid_large_store :
  document (page_after (generateGrid a_to_h large) (blank_page 1280)) =
  [ mkElement "table" [("id", "imagesGrid")] [1];
    mkElement "tbody" [] [2; 11];
    mkElement "tr" [] [3; 5; 7; 9];
    mkElement "td" [] [4]; mkElement "img" [("src", "a")] [];
    mkElement "td" [] [6]; mkElement "img" [("src", "b")] [];
    mkElement "td" [] [8]; mkElement "img" [("src", "c")] [];
    mkElement "td" [] [10]; mkElement "img" [("src", "d")] [];
    mkElement "tr" [] [12; 14; 16; 18];
    mkElement "td" [] [13]; mkElement "img" [("src", "e")] [];
    mkElement "td" [] [15]; mkElement "img" [("src", "f")] [];
    mkElement "td" [] [17]; mkElement "img" [("src", "g")] [];
    mkElement "td" [] [19]; mkElement "img" [("src", "h")] [] ].
Proof. vm_compute. reflexivity. Qed.

Lemma grid_tree_shape imageUrls size :
  length imageUrls = 8 ->
  let t := grid_tree (fst (spec_shape size)) (snd (spec_shape size)) imageUrls in
  length (table_rows t) = fst (spec_shape size) /\
  Forall (fun r => length (row_cells r) = snd (spec_shape size)) (table_rows t) /\
  cell_sources <$> row_major t = (fun u => [Some u]) <$> imageUrls.
Proof.
  intros Hlen.
  destruct imageUrls as [|u0 [|u1 [|u2 [|u3 [|u4 [|u5 [|u6 [|u7 [|]]]]]]]]];
    try discriminate Hlen.
  destruct size; vm_compute; (split; [reflexivity|]);
    (split; [repeat constructor|reflexivity]).
Qed.

(** C1: for a list of 8 urls, [generateGrid] returns a table whose shape
    depends on the size class alone (small 8 rows of 1 cell, medium 4 rows
    of 2, large 2 rows of 4) and whose cells, read row after row, each
    hold one image showing the url of the same rank.  In particular the
    urls "a" to "h" with size large give 2 rows of 4 cells showing
    a, b, c, d and e, f, g, h. *)
Theorem generateGrid_shape_and_order
    (imageUrls : list string) (size : SizeClass) (p : Page) :
  (length imageUrls = 8 ->
   exists imagesGrid p' t,
     generateGrid imageUrls size p = (Return imagesGrid, p') /\
     tree_at p' imagesGrid = Some t /\
     t = grid_tree (fst (spec_shape size)) (snd (spec_shape size)) imageUrls /\
     length (table_rows t) = fst (spec_shape size) /\
     Forall (fun r => length (row_cells r) = snd (spec_shape size))
       (table_rows t) /\
     cell_sources <$> row_major t = (fun u => [Some u]) <$> imageUrls) /\
  (exists imagesGrid p' r1 r2,
     generateGrid a_to_h large p = (Return imagesGrid, p') /\
     tree_at p' imagesGrid
       = Some (Node "table" [("id", "imagesGrid")] [Node "tbody" [] [r1; r2]]) /\
     table_rows (Node "table" [("id", "imagesGrid")] [Node "tbody" [] [r1; r2]])
       = [r1; r2] /\
     cell_sources <$> row_cells r1
       = [[Some "a"]; [Some "b"]; [Some "c"]; [Some "d"]] /\
     cell_sources <$> row_cells r2
       = [[Some "e"]; [Some "f"]; [Some "g"]; [Some "h"]]).
Proof.
  split.
  - intros Hlen.
    destruct (generateGrid_returns imageUrls size p Hlen)
      as (p' & l & Hrun & _ & _ & _ & _ & Htree & _).
    destruct (grid_tree_shape imageUrls size Hlen) as (Hrows & Hcols & Hsrc).
    exists (length (document p)), p'. eexists.
    split; [exact Hrun|]. split; [exact Htree|]. repeat split; assumption.
  - destruct (generateGrid_returns a_to_h large p eq_refl)
      as (p' & l & Hrun & _ & _ & _ & _ & Htree & _).
    exists (length (document p)), p'. do 2 eexists.
    split; [exact Hrun|]. split; [exact Htree|]. repeat split.
Qed.

Lemma generateGrid_shape_and_order_witness :
  exists imagesGrid p' t,
    generateGrid a_to_h large busy_page = (Return imagesGrid, p') /\
    tree_at p' imagesGrid = Some t /\
    t = grid_tree 2 4 a_to_h /\
    length (table_rows t) = 2 /\
    Forall (fun r => length (row_cells r) = 4) (table_rows t) /\
    cell_sources <$> row_major t =
      [[Some "a"]; [Some "b"]; [Some "c"]; [Some "d"];
       [Some "e"]; [Some "f"]; [Some "g"]; [Some "h"]].
Proof.
  exact (proj1 (generateGrid_shape_and_order a_to_h large busy_page) eq_refl).
Defined.

(** ** [generateGrid]: two calls *)

(** Writing to an element stored behind the grid of [p1] keeps the store
    of [p1] as a prefix. *)
Lemma setAttribute_behind p1 p2 l n name value :
  document p2 = document p1 ++ l ->
  length (document p1) <= n ->
  exists l',
    document (page_after (setAttribute n name value) p2) = document p1 ++ l'.
Proof.
  intros Hd Hn. unfold page_after, setAttribute, modify. cbn. rewrite Hd.
  replace n with (length (document p1) + (n - length (document p1))) by lia.
  rewrite alter_app_r. now eexists.
Qed.

(** Writing to an element stored before a grafted store leaves a grafted
    store. *)
Lemma setAttribute_before d0 pe n name value :
  n < length d0 ->
  exists d0',
    length d0' = length d0 /\
    page_after (setAttribute n name value) (graft d0 pe) = graft d0' pe.
Proof.
  intros Hn. eexists (alter _ n d0). split; [apply length_alter|].
  unfold page_after, setAttribute, modify, graft, set_document. cbn.
  rewrite length_alter, alter_app_l by exact Hn. reflexivity.
Qed.

(** C9: two calls of [generateGrid] with the same arguments return two
    tables with the same tree, a tree that depends on the arguments only;
    the second call leaves the first table as it was; the two tables have
    no element in common, and writing to an element of one does not change
    the other. *)
Theorem generateGrid_twice
    (imageUrls : list string) (size : SizeClass) (p : Page) :
  length imageUrls = 8 ->
  exists g1 p1 g2 p2 t,
    generateGrid imageUrls size p = (Return g1, p1) /\
    generateGrid imageUrls size p1 = (Return g2, p2) /\
    tree_at p1 g1 = Some t /\
    tree_at p2 g2 = Some t /\
    tree_at p2 g1 = Some t /\
    (forall q, exists g q',
       generateGrid imageUrls size q = (Return g, q') /\
       tree_at q' g = Some t) /\
    (forall n, n ∈ nodes_at p2 g1 -> n ∉ nodes_at p2 g2) /\
    (forall n name value,
       n ∈ nodes_at p2 g2 ->
       tree_at (page_after (setAttribute n name value) p2) g1 = Some t) /\
    (forall n name value,
       n ∈ nodes_at p2 g1 ->
       tree_at (page_after (setAttribute n name value) p2) g2 = Some t).
Proof.
  intros Hlen.
  destruct (generateGrid_graft imageUrls size p Hlen)
    as (pe1 & Hrun1 & Htree1 & Hnodes1 & Hpos1 & _).
  destruct (graft_root (document p) pe1 _ Htree1 Hnodes1) as [Ht1 Hn1].
  set (p1 := graft (document p) pe1) in *.
  destruct (generateGrid_graft imageUrls size p1 Hlen)
    as (pe2 & Hrun2 & Htree2 & Hnodes2 & Hpos2 & _).
  destruct (graft_root (document p1) pe2 _ Htree2 Hnodes2) as [Ht2 Hn2].
  set (p2 := graft (document p1) pe2) in *.
  assert (Hd2 : document p2 =
                document p1 ++ (shift (length (document p1)) <$> document pe2))
    by reflexivity.
  assert (Hlen1 : length (document p1) =
                  length (document p) + length (document pe1))
    by (subst p1; unfold graft; cbn; now rewrite length_app, length_fmap).
  pose proof (tree_at_extend p1 p2 _ _ _ Hd2 Ht1) as Ht12.
  pose proof (nodes_at_extend p1 p2 _ _ _ Hd2 Ht1) as Hn12.
  rewrite Hn1 in Hn12.
  exists (length (document p)), p1, (length (document p1)), p2. eexists.
  split; [exact Hrun1|]. split; [exact Hrun2|].
  split; [exact Ht1|]. split; [exact Ht2|]. split; [exact Ht12|].
  split; [|split; [|split]].
  - intros q.
    destruct (generateGrid_returns imageUrls size q Hlen)
      as (q' & l & Hrun & _ & _ & _ & _ & Htree & _).
    now exists (length (document q)), q'.
  - intros n. rewrite Hn12, Hn2, !elem_of_seq. lia.
  - intros n name value. rewrite Hn2, elem_of_seq. intros [Hge _].
    destruct (setAttribute_behind p1 p2 _ n name value Hd2 Hge) as [l' Hd'].
    exact (tree_at_extend p1 _ _ _ _ Hd' Ht1).
  - intros n name value. rewrite Hn12, elem_of_seq. intros [_ Hlt].
    destruct (setAttribute_before (document p1) pe2 n name value)
      as (d' & Hlen' & Hpage); [lia|].
    subst p2. rewrite Hpage, <- Hlen'.
    exact (proj1 (graft_root d' pe2 _ Htree2 Hnodes2)).
Qed.

Lemma generateGrid_twice_witness :
  exists g1 p1 g2 p2 t,
    generateGrid a_to_h medium busy_page = (Return g1, p1) /\
    generateGrid a_to_h medium p1 = (Return g2, p2) /\
    tree_at p1 g1 = Some t /\
    tree_at p2 g2 = Some t /\
    tree_at p2 g1 = Some t /\
    (forall n, n ∈ nodes_at p2 g1 -> n ∉ nodes_at p2 g2).
Proof.
  destruct (generateGrid_twice a_to_h medium busy_page eq_refl)
    as (g1 & p1 & g2 & p2 & t & H1 & H2 & H3 & H4 & H5 & _ & H7 & _).
  exists g1, p1, g2, p2, t. auto 10.
Defined.

(** ** The presentation controller *)

Module PresentationControllerFacts.
Import PresentationController.

(** C4: in state [Open i], "previous" leads to [Open ((i - 1 + 8) mod 8)]
    and "next" to [Open ((i + 1) mod 8)]; previous from 0 gives 7 and next
    from 7 gives 0; the index of every reachable state lies in 0..7. *)
Theorem navigation_stays_in_range (i : Z) (s : PresentationState) :
  step (Open i) PreviousActivated = Open ((i - 1 + 8) mod 8) /\
  step (Open i) NextActivated = Open ((i + 1) mod 8) /\
  step (Open 0) PreviousActivated = Open 7 /\
  step (Open 7) NextActivated = Open 0 /\
  (reachable s -> (0 <= currentIndex s <= 7)%Z).
Proof.
  do 4 (split; [reflexivity|]).
  intros Hs. induction Hs as [j Hj|s e Hs IH He]; [exact Hj|].
  destruct e as [j| | |]; cbn in *; [exact He| | |];
    destruct (isOpen s); cbn; try exact IH.
  - pose proof (Z.mod_pos_bound (currentIndex s - 1 + 8) 8). lia.
  - pose proof (Z.mod_pos_bound (currentIndex s + 1) 8). lia.
Qed.

Lemma navigation_stays_in_range_witness :
  step (step (Closed 3) (CellClicked 0)) PreviousActivated = Open 7 /\
  (0 <= currentIndex
          (step (step (Closed 3) (CellClicked 0)) PreviousActivated) <= 7)%Z.
Proof.
  split; [reflexivity|].
  refine (proj2 (proj2 (proj2 (proj2 (navigation_stays_in_range 0 _)))) _).
  apply reachable_step; [|exact I].
  apply reachable_step; [|simpl; lia].
  apply reachable_start. lia.
Defined.

End PresentationControllerFacts.

(** * Further properties of the library *)

(** ** The classifier is monotone *)

Section FloatOrderMore.
Local Open Scope float_scope.

(** [<=] against a positive finite bound is downward closed. *)
Lemma SFleb_below x y mz ez :
  SFleb x y = true ->
  SFleb y (S754_finite false mz ez) = true ->
  SFleb x (S754_finite false mz ez) = true.
Proof.
  unfold SFleb.
  destruct x as [sx|sx| |sx mx ex], y as [sy|sy| |sy my ey];
    cbn -[Z.compare Pos.compare_cont];
    try discriminate; try reflexivity;
    try (destruct sx; try discriminate; try reflexivity);
    try (destruct sy; try discriminate; try reflexivity).
  all: change (Pos.compare_cont Eq ?a ?b) with (Pos.compare a b).
  all: destruct (Z.compare_spec ex ey); try discriminate;
       destruct (Z.compare_spec ey ez); try discriminate;
       destruct (Z.compare_spec ex ez); try reflexivity; try lia.
  all: destruct (Pos.compare_spec mx my); try discriminate;
       destruct (Pos.compare_spec my mz); try discriminate;
       destruct (Pos.compare_spec mx mz); try reflexivity; lia.
Qed.

Lemma leb_below_600 w1 w2 :
  (w1 <=? w2) = true -> (w2 <=? 600) = true -> (w1 <=? 600) = true.
Proof.
  rewrite !leb_spec.
  change (Prim2SF 600) with (S754_finite false 5277655813324800 (-43)).
  apply SFleb_below.
Qed.

Lemma leb_below_800 w1 w2 :
  (w1 <=? w2) = true -> (w2 <=? 800) = true -> (w1 <=? 800) = true.
Proof.
  rewrite !leb_spec.
  change (Prim2SF 800) with (S754_finite false 7036874417766400 (-43)).
  apply SFleb_below.
Qed.

End FloatOrderMore.

(** X1: a wider viewport never gets a smaller size class. *)
Theorem getViewportSizeName_monotone (w1 w2 : float) :
  (w1 <=? w2)%float = true ->
  rank (getViewportSizeName w1) <= rank (getViewportSizeName w2).
Proof.
  intros Hle. unfold getViewportSizeName.
  destruct (w2 <=? 600)%float eqn:H6.
  - rewrite (leb_below_600 _ _ Hle H6). reflexivity.
  - destruct (w2 <=? 800)%float eqn:H8.
    + rewrite (leb_below_800 _ _ Hle H8).
      destruct (w1 <=? 600)%float; cbn; lia.
    + destruct (w1 <=? 600)%float; [|destruct (w1 <=? 800)%float]; cbn; lia.
Qed.

Lemma getViewportSizeName_monotone_witness :
  rank (getViewportSizeName 599.5) <= rank (getViewportSizeName 600.5).
Proof.
  exact (getViewportSizeName_monotone 599.5 600.5 eq_refl).
Defined.

(** ** The watcher follows the viewport *)


Lemma resizes_in_step f ws : forall p,
  watching f (getViewportSizeName (innerWidth (window p))) p ->
  watching f
    (getViewportSizeName (innerWidth (window (page_after (resizes ws) p))))
    (page_after (resizes ws) p).
Proof.
  induction ws as [|w ws IH]; intros p Hp; [exact Hp|].
  unfold page_after. cbn [resizes].
  rewrite (bind_Return _ _ _ _ _ (resize_watching f _ w p Hp)).
  apply IH. reflexivity.
Qed.



(** X14: a registration whose function throws in the call made at
    registration installs nothing.  The function was called once, with the
    class of the current width; the listener of the earlier registration
    stays, and the resize events that follow call the earlier function
    only. *)
Theorem onSizeClassChange_callback_throws
    (f g : FunId) (e : Error) (ws1 ws2 : list float) (p : Page) :
  completion (onSizeClassChange (JsFunction f)) p = Return tt ->
  completion (onSizeClassChange (JsFunction g))
    (page_after (resizes ws1) (registered f p)) = Throw e ->
  exists current,
    watching f current (registered_again f g ws1 p) /\
    calls (registered_again f g ws1 p) =
      calls (page_after (resizes ws1) (registered f p)) ++
      [mkCall g current] /\
    calls (page_after (resizes ws2) (registered_again f g ws1 p)) =
      calls (registered_again f g ws1 p) ++
      (mkCall f <$> transitions current ws2).
Proof.
  intros Hf Hg. unfold registered_again.
  assert (Hq : watching f
                 (getViewportSizeName
                    (innerWidth
                       (window (page_after (resizes ws1) (registered f p)))))
                 (page_after (resizes ws1) (registered f p))).
  { rewrite (registered_normally f p Hf). now apply resizes_in_step. }
  set (q := page_after (resizes ws1) (registered f p)) in *.
  change (page_after (onSizeClassChange (JsFunction g)) q)
    with (registered g q).
  rewrite (registered_thrown g q e Hg).
  set (c := getViewportSizeName (innerWidth (window q))) in *.
  set (q' := mkPage _ _ _ _).
  assert (Hq' : watching f c q') by exact Hq.
  exists c. split; [exact Hq'|]. split; [reflexivity|].
  destruct (resizes_watching f ws2 c q' Hq') as (q2 & Hrun & _ & _ & Hc).
  unfold page_after. rewrite Hrun. exact Hc.
Qed.

Lemma onSizeClassChange_callback_throws_witness :
  calls (page_after (resizes [1000]%float)
           (registered_again 1 2 [] (fragile_page 700 2))) =
  [mkCall 1 medium; mkCall 2 medium; mkCall 1 large].
Proof.
  destruct (onSizeClassChange_callback_throws 1 2
              (OtherError "callback failed") [] [1000]%float
              (fragile_page 700 2) eq_refl eq_refl)
    as (current & Hw & _ & Hc).
  assert (E : current = medium)
    by (unfold watching in Hw; cbn in Hw; now injection Hw).
  rewrite E in Hc. exact Hc.
Defined.


(** ** Looking an element up and using it *)

Lemma bind_Return_dom {A B} (m : DOM A) (c : A -> DOM B) b a b' :
  m b = (Return a, b') -> (m ≫= c) b = c a b'.
Proof. unfold mbind, DOM_bind. now intros ->. Qed.

Lemma bind_Throw_dom {A B} (m : DOM A) (c : A -> DOM B) b e b' :
  m b = (Throw e, b') -> (m ≫= c) b = (Throw e, b').
Proof. unfold mbind, DOM_bind. now intros ->. Qed.

Lemma query_found s b n :
  select b s = Some n ->
  (document_querySelector s ≫= deref) b = (Return n, b).
Proof.
  intros Hs. unfold mbind, DOM_bind, document_querySelector, gets_dom.
  now rewrite Hs.
Qed.

Lemma query_missing s b :
  select b s = None ->
  (document_querySelector s ≫= deref) b =
  (Throw (TypeError "Cannot read properties of null"), b).
Proof.
  intros Hs. unfold mbind, DOM_bind, document_querySelector, gets_dom.
  now rewrite Hs.
Qed.

(** ** Showing and hiding the modal *)

Lemma set_display_found value b m :
  select b (IdSelector "presentationModal") = Some m ->
  (modal ← document_querySelector (IdSelector "presentationModal") ≫= deref;
   set_style modal "display" value) b =
  (Return tt, set_styleLog ((m, ("display", value)) :: styleLog b) b).
Proof. intros Hm. now rewrite (bind_Return_dom _ _ _ _ _ (query_found _ _ _ Hm)). Qed.

Lemma show_hide_run ops : forall b m,
  select b (IdSelector "presentationModal") = Some m ->
  show_hide ops b =
  (Return tt,
   set_styleLog
     (((fun op : bool => (m, ("display", if op then "block" else "none")))
         <$> rev ops) ++ styleLog b) b).
Proof.
  induction ops as [|op ops IH]; intros b m Hm.
  - destruct b. reflexivity.
  - cbn [show_hide].
    assert (Hstep : (if op then openPresentationModal
                     else closePresentationModal) b =
                    (Return tt,
                     set_styleLog
                       ((m, ("display", if op then "block" else "none"))
                          :: styleLog b) b))
      by (destruct op; apply set_display_found, Hm).
    rewrite (bind_Return_dom _ _ _ _ _ Hstep).
    rewrite (IH _ m) by exact Hm.
    cbn [rev]. rewrite fmap_app, <- app_assoc. reflexivity.
Qed.

(** X3: with a modal in the document, any sequence of
    [openPresentationModal] and [closePresentationModal] succeeds, and the
    modal's [display] is the one of the last call: [block] after an open,
    [none] after a close (for a browser that accepts both values).  The
    calls change nothing but this one style property. *)
Theorem show_hide_last_wins
    (css_valid : string -> string -> bool) (ops : list bool) (op : bool)
    (b : Browser) (m : NodeId) :
  select b (IdSelector "presentationModal") = Some m ->
  css_valid "display" "block" = true ->
  css_valid "display" "none" = true ->
  outcome (show_hide (ops ++ [op])) b = Return tt /\
  style_of css_valid (browser_after (show_hide (ops ++ [op])) b) m "display" =
    Some (if op then "block" else "none") /\
  page (browser_after (show_hide (ops ++ [op])) b) = page b /\
  clickListeners (browser_after (show_hide (ops ++ [op])) b) = clickListeners b /\
  hostCalls (browser_after (show_hide (ops ++ [op])) b) = hostCalls b /\
  (forall n prop,
     (n, prop) <> (m, "display") ->
     style_of css_valid (browser_after (show_hide (ops ++ [op])) b) n prop =
     style_of css_valid b n prop).
Proof.
  intros Hm Hblock Hnone. unfold outcome, browser_after.
  rewrite (show_hide_run _ _ m Hm). cbn [fst snd].
  rewrite rev_app_distr. cbn [rev app fmap list_fmap].
  repeat split.
  - unfold style_of. cbn. rewrite Nat.eqb_refl. cbn.
    destruct op; cbn; [rewrite Hblock|rewrite Hnone]; reflexivity.
  - intros n prop Hne. unfold style_of. cbn [styleLog set_styleLog].
    assert (Hskip : forall (l : list bool) rest,
      find (fun x => Nat.eqb (fst x) n && String.eqb (fst (snd x)) prop
                     && css_valid (fst (snd x)) (snd (snd x)))
        (((fun o : bool => (m, ("display", if o then "block" else "none")))
            <$> l) ++ rest) =
      find (fun x => Nat.eqb (fst x) n && String.eqb (fst (snd x)) prop
                     && css_valid (fst (snd x)) (snd (snd x))) rest).
    { induction l as [|o l IHl]; intros rest; [reflexivity|].
      cbn -[String.eqb Nat.eqb].
      destruct (Nat.eqb_spec m n) as [E|_]; cbn -[String.eqb]; [|apply IHl].
      destruct (String.eqb_spec "display" prop) as [E'|_]; cbn; [|apply IHl].
      exfalso. apply Hne. congruence. }
    exact (f_equal _ (Hskip (op :: rev ops) (styleLog b))).
Qed.

Lemma show_hide_last_wins_witness :
  style_of css_example
    (browser_after (show_hide [true; false; true])
       (browser_after createModal bare_browser)) 2 "display" = Some "block".
Proof.
  exact (proj1 (proj2 (show_hide_last_wins css_example [true; false] true
                         (browser_after createModal bare_browser) 2
                         eq_refl eq_refl eq_refl))).
Defined.

(** ** The modal functions without a modal *)

(** X4: when the document has no element with the id a modal function
    looks up, the function throws a [TypeError] (it reads a property of
    [null]) and leaves the browser as it was. *)
Theorem modal_functions_need_the_modal
    (src : string) (f g h : FunId) (b : Browser) :
  (select b (IdSelector "presentationModal") = None ->
   openPresentationModal b =
     (Throw (TypeError "Cannot read properties of null"), b) /\
   closePresentationModal b =
     (Throw (TypeError "Cannot read properties of null"), b)) /\
  (select b (IdSelector "modalImage") = None ->
   setModalImgSrc src b =
     (Throw (TypeError "Cannot read properties of null"), b)) /\
  (select b (IdSelector "closeButton") = None ->
   initModal f g h b =
     (Throw (TypeError "Cannot read properties of null"), b)).
Proof.
  split; [|split]; intros Hnone; [split| |];
    unfold openPresentationModal, closePresentationModal, setModalImgSrc,
      initModal;
    apply bind_Throw_dom, query_missing, Hnone.
Qed.

Lemma modal_functions_need_the_modal_witness :
  openPresentationModal bare_browser =
    (Throw (TypeError "Cannot read properties of null"), bare_browser) /\
  setModalImgSrc "a" bare_browser =
    (Throw (TypeError "Cannot read properties of null"), bare_browser) /\
  initModal 1 2 3 bare_browser =
    (Throw (TypeError "Cannot read properties of null"), bare_browser).
Proof.
  destruct (modal_functions_need_the_modal "a" 1 2 3 bare_browser)
    as (Hopen & Hsrc & Hinit).
  split; [exact (proj1 (Hopen eq_refl))|].
  split; [exact (Hsrc eq_refl)|exact (Hinit eq_refl)].
Defined.

(** ** [initModal] *)

(** The listeners after [el.addEventListener('click', f)] for a host
    function [f]. *)
Lemma addEventListener_host n f b :
  addEventListener n (HostListener f) b =
  (Return tt,
   set_clickListeners
     (if bool_decide ((n, HostListener f) ∈ clickListeners b)
      then clickListeners b
      else clickListeners b ++ [(n, HostListener f)]) b).
Proof.
  unfold addEventListener, modify_dom. destruct b as [p r s l c]. cbn.
  now destruct (bool_decide _).
Qed.

(** X5: [initModal] is not all-or-nothing.  If the close button is in the
    document but the previous button is not, the call throws a
    [TypeError] and the listener of the close button stays registered. *)
Theorem initModal_stops_half_way (f g h : FunId) (b : Browser) (c : NodeId) :
  select b (IdSelector "closeButton") = Some c ->
  select b (IdSelector "previousButton") = None ->
  (c, HostListener f) ∉ clickListeners b ->
  outcome (initModal f g h) b =
    Throw (TypeError "Cannot read properties of null") /\
  clickListeners (browser_after (initModal f g h) b) =
    clickListeners b ++ [(c, HostListener f)].
Proof.
  intros Hc Hp Hnew. unfold outcome, browser_after, initModal.
  rewrite (bind_Return_dom _ _ _ _ _ (query_found _ _ _ Hc)).
  rewrite (bind_Return_dom _ _ _ _ _ (addEventListener_host c f b)).
  rewrite bool_decide_false by exact Hnew.
  assert (Hp' : select (set_clickListeners
                          (clickListeners b ++ [(c, HostListener f)]) b)
                  (IdSelector "previousButton") = None) by exact Hp.
  rewrite (bind_Throw_dom _ _ _ _ _ (query_missing _ _ Hp')).
  split; reflexivity.
Qed.

Lemma initModal_stops_half_way_witness :
  outcome (initModal 1 2 3) close_only_browser =
    Throw (TypeError "Cannot read properties of null") /\
  clickListeners (browser_after (initModal 1 2 3) close_only_browser) =
    [(2, HostListener 1)].
Proof.
  refine (initModal_stops_half_way 1 2 3 close_only_browser 2
            eq_refl eq_refl _).
  apply not_elem_of_nil.
Defined.

(** ** Attributes *)

Lemma get_set_attribute name value attrs :
  get_attribute name (set_attribute name value attrs) = Some value.
Proof.
  induction attrs as [|[k v] attrs IH]; cbn -[String.eqb].
  - now rewrite String.eqb_refl.
  - destruct (String.eqb_spec k name) as [->|Hne]; cbn -[String.eqb].
    + now rewrite String.eqb_refl.
    + destruct (String.eqb_spec k name); [contradiction|exact IH].
Qed.


(** ** Queries see tags, ids and the tree only *)

Section SameShape.
Variables d1 d2 : list Element.
Hypothesis Hlen : length d1 = length d2.
Hypothesis Hkids : forall n, children <$> d1 !! n = children <$> d2 !! n.
Hypothesis Htag : forall n, tagName <$> d1 !! n = tagName <$> d2 !! n.
Hypothesis Hid : forall n,
  (fun e => get_attribute "id" (attributes e)) <$> d1 !! n =
  (fun e => get_attribute "id" (attributes e)) <$> d2 !! n.







End SameShape.



Lemma head_filter_Some {A} (P : A -> bool) l x :
  head (List.filter P l) = Some x -> P x = true /\ In x l.
Proof.
  induction l as [|y l IH]; [discriminate|]. cbn.
  destruct (P y) eqn:Hy; cbn.
  - intros [= ->]. auto.
  - intros H. destruct (IH H). auto.
Qed.

Lemma select_matches b s n :
  select b s = Some n ->
  matches (document (page b)) s n = true /\ In n (document_nodes b).
Proof. apply head_filter_Some. Qed.

Lemma has_id_lookup d id n :
  has_id d id n = true ->
  exists e, d !! n = Some e /\ get_attribute "id" (attributes e) = Some id.
Proof.
  unfold has_id. destruct (d !! n) as [e|]; [|discriminate].
  destruct (get_attribute "id" (attributes e)) as [v|] eqn:Hv;
    [|discriminate].
  intros E. apply String.eqb_eq in E. subst v. exists e. split; auto.
Qed.

(** ** [setModalImgSrc] *)

Lemma setModalImgSrc_run src b i :
  select b (IdSelector "modalImage") = Some i ->
  setModalImgSrc src b =
  (Return tt,
   set_page
     (set_document
        (alter (fun e => mkElement (tagName e)
                           (set_attribute "src" src (attributes e))
                           (children e)) i (document (page b)))
        (page b)) b).
Proof.
  intros Hi. unfold setModalImgSrc.
  now rewrite (bind_Return_dom _ _ _ _ _ (query_found _ _ _ Hi)).
Qed.




(** ** [addImageClickHandlers] *)

Lemma forEach_addEventListener callback images : forall i b,
  forEach_dom_from i images
    (fun image i => addEventListener image (IndexListener callback i)) b =
  (Return tt,
   set_clickListeners
     (clickListeners b ++ index_listeners callback i images) b).
Proof.
  induction images as [|n images IH]; intros i b.
  - cbn. rewrite app_nil_r. now destruct b.
  - cbn [forEach_dom_from index_listeners].
    unfold mbind, DOM_bind, addEventListener at 1, modify_dom.
    rewrite IH. cbn. now rewrite <- app_assoc.
Qed.

Lemma addImageClickHandlers_run callback b :
  addImageClickHandlers callback b =
  (Return tt,
   set_clickListeners
     (clickListeners b ++
      index_listeners callback 0
        (select_all b (InsideId "imagesGrid" "img"))) b).
Proof.
  unfold addImageClickHandlers, mbind, DOM_bind, document_querySelectorAll,
    gets_dom, forEach_dom.
  apply forEach_addEventListener.
Qed.

Lemma index_listeners_off callback x images : forall i,
  ~ In x images ->
  List.filter (fun y => Nat.eqb (fst y) x) (index_listeners callback i images)
    = [].
Proof.
  induction images as [|n images IH]; intros i Hx; [reflexivity|].
  cbn. destruct (Nat.eqb_spec n x) as [->|_].
  - exfalso. apply Hx. now left.
  - apply IH. intros H. apply Hx. now right.
Qed.

Lemma index_listeners_on callback images : forall i j n,
  NoDup images -> images !! j = Some n ->
  List.filter (fun y => Nat.eqb (fst y) n) (index_listeners callback i images)
    = [(n, IndexListener callback (i + j))].
Proof.
  induction images as [|m images IH]; intros i j n Hnd Hj; [discriminate|].
  apply NoDup_cons in Hnd as [Hm Hnd].
  destruct j as [|j]; cbn in Hj |- *.
  - injection Hj as ->. rewrite Nat.eqb_refl, Nat.add_0_r. f_equal.
    apply index_listeners_off. now rewrite <- list_elem_of_In.
  - destruct (Nat.eqb_spec m n) as [->|_].
    + exfalso. apply Hm. apply list_elem_of_lookup. now exists j.
    + rewrite (IH (S i) j n Hnd Hj). do 3 f_equal. lia.
Qed.

Lemma listeners_on_app b x extra :
  listeners_on (set_clickListeners (clickListeners b ++ extra) b) x =
  listeners_on b x ++
  (snd <$> List.filter (fun y => Nat.eqb (fst y) x) extra).
Proof.
  unfold listeners_on. cbn. now rewrite List.filter_app, fmap_app.
Qed.

Lemma parent_of_Some d n p :
  parent_of d n = Some p ->
  exists e, d !! p = Some e /\ n ∈ children e.
Proof.
  unfold parent_of. destruct (list_find _ d) as [[i e]|] eqn:Hf; [|discriminate].
  intros [= <-]. apply list_find_Some in Hf as (He & Hn & _). now exists e.
Qed.

Lemma ancestors_have_children fuel d : forall n a,
  In a (ancestors fuel d n) ->
  exists e, d !! a = Some e /\ children e <> [].
Proof.
  induction fuel as [|fuel IH]; intros n a; [intros []|].
  cbn [ancestors]. destruct (parent_of d n) as [p|] eqn:Hp; [|intros []].
  intros [<-|Ha]; [|exact (IH _ _ Ha)].
  destruct (parent_of_Some _ _ _ Hp) as (e & He & Hn).
  exists e. split; [exact He|]. intros E. rewrite E in Hn.
  now apply not_elem_of_nil in Hn.
Qed.

Lemma has_tag_lookup d tag n :
  has_tag d tag n = true -> exists e, d !! n = Some e /\ tagName e = tag.
Proof.
  unfold has_tag. destruct (d !! n) as [e|]; [|discriminate].
  intros E. apply String.eqb_eq in E. now exists e.
Qed.

Lemma images_not_ancestors b n a :
  images_are_leaves (document (page b)) = true ->
  In a (ancestors (length (document (page b))) (document (page b)) n) ->
  ~ In a (select_all b (InsideId "imagesGrid" "img")).
Proof.
  intros Hleaf Ha Hin.
  destruct (ancestors_have_children _ _ _ _ Ha) as (e & He & Hkids).
  apply filter_In in Hin as [_ Hm]. cbn [matches] in Hm.
  apply andb_true_iff in Hm as [Ht _].
  destruct (has_tag_lookup _ _ _ Ht) as (e' & He' & Htag).
  rewrite He in He'. injection He' as <-.
  unfold images_are_leaves in Hleaf. rewrite forallb_forall in Hleaf.
  specialize (Hleaf e (proj1 (list_elem_of_In _ _)
                         (list_elem_of_lookup_2 _ _ _ He))).
  rewrite Htag in Hleaf. cbn in Hleaf.
  destruct (children e); [now apply Hkids|discriminate].
Qed.

(** The calls a click on image [n] adds once [addImageClickHandlers] has
    run: the new listener runs after the listeners [n] had before and
    before the listeners of its ancestors. *)
Lemma click_after_addImageClickHandlers callback b i n :
  NoDup (document_nodes b) ->
  images_are_leaves (document (page b)) = true ->
  select_all b (InsideId "imagesGrid" "img") !! i = Some n ->
  hostCalls (browser_after (click n)
               (browser_after (addImageClickHandlers callback) b)) =
  hostCalls b ++
  (call_listener n <$> listeners_on b n) ++ [IndexCall callback i] ++
  flat_map (fun a => call_listener n <$> listeners_on b a)
    (ancestors (length (document (page b))) (document (page b)) n).
Proof.
  intros Hnd Hleaf Hi. unfold browser_after.
  rewrite addImageClickHandlers_run. cbn [snd].
  unfold click, modify_dom. cbn [snd hostCalls set_hostCalls].
  cbn [page set_clickListeners document flat_map]. f_equal.
  rewrite listeners_on_app.
  assert (Hnd' : NoDup (select_all b (InsideId "imagesGrid" "img"))).
  { apply NoDup_ListNoDup, List.NoDup_filter, NoDup_ListNoDup, Hnd. }
  rewrite (index_listeners_on callback _ 0 i n Hnd' Hi).
  rewrite fmap_app, <- app_assoc. cbn [fmap list_fmap snd call_listener app].
  do 2 f_equal.
  assert (Hanc := fun a => images_not_ancestors b n a Hleaf).
  induction (ancestors _ _ n) as [|a l IH]; [reflexivity|].
  cbn [flat_map]. rewrite listeners_on_app.
  rewrite (index_listeners_off _ _ _ _ (Hanc a (or_introl eq_refl))).
  cbn [fmap list_fmap]. rewrite app_nil_r. f_equal.
  apply IH. intros a' Ha'. apply Hanc. now right.
Qed.

(** ** Relocation, continued: markup with attributes and id selectors *)

Lemma Html_nested_ind (P : Html -> Prop) :
  (forall name attrs content, Forall P content -> P (Elem name attrs content)) ->
  forall m, P m.
Proof.
  intros step. fix IH 1. intros [name attrs content]. apply step.
  induction content as [|m ms IHms]; constructor; [apply IH | exact IHms].
Qed.

Lemma build_html_unfold name attrs content d :
  build_html (Elem name attrs content) d =
  let r := build_html_all content (d ++ [mkElement name attrs []]) in
  (length d,
   alter (fun e => mkElement (tagName e) (attributes e) (fst r))
     (length d) (snd r)).
Proof. reflexivity. Qed.

Section RelocationMore.
Variable d0 : list Element.
Abbreviation k1 := (length d0).
Abbreviation moved1 d := (d0 ++ (shift k1 <$> d)).

Lemma build_html_moved m : forall d,
  build_html m (moved1 d) =
  (k1 + fst (build_html m d), moved1 (snd (build_html m d))).
Proof.
  induction m as [name attrs content IH] using Html_nested_ind. intros d.
  assert (Hall : forall d',
    build_html_all content (moved1 d') =
    (Nat.add k1 <$> fst (build_html_all content d'),
     moved1 (snd (build_html_all content d')))).
  { induction IH as [|m ms Hm _ IHms]; intros d'; [reflexivity|].
    cbn [build_html_all]. rewrite Hm. cbn [fst snd]. rewrite IHms.
    reflexivity. }
  rewrite !build_html_unfold. cbn zeta.
  replace (moved1 d ++ [mkElement name attrs []])
    with (moved1 (d ++ [mkElement name attrs []]))
    by (rewrite fmap_app, app_assoc; reflexivity).
  rewrite Hall, length_moved. cbn [fst snd]. f_equal.
  apply alter_moved. reflexivity.
Qed.

Lemma build_html_all_moved ms : forall d,
  build_html_all ms (moved1 d) =
  (Nat.add k1 <$> fst (build_html_all ms d),
   moved1 (snd (build_html_all ms d))).
Proof.
  induction ms as [|m ms IH]; intros d; [reflexivity|].
  cbn [build_html_all]. rewrite build_html_moved. cbn [fst snd]. rewrite IH.
  reflexivity.
Qed.

Lemma set_innerHTML_html_relocates n html p :
  relocates d0 id (set_innerHTML_html (k1 + n) html)
    (set_innerHTML_html n html) p.
Proof.
  unfold relocates, set_innerHTML_html, modify, graft, set_document.
  cbn. f_equal.
  rewrite lookup_moved. destruct (document p !! n) as [e|]; [|reflexivity].
  cbn. rewrite build_html_all_moved. cbn. f_equal.
  apply alter_moved. reflexivity.
Qed.

Lemma has_id_moved (d : list Element) id n :
  has_id (moved1 d) id (k1 + n) = has_id d id n.
Proof. unfold has_id. rewrite lookup_moved. destruct (d !! n); reflexivity. Qed.

Lemma element_querySelector_relocates n id p t :
  tree_at p n = Some t ->
  relocates d0 (fmap (Nat.add k1))
    (element_querySelector (k1 + n) (IdSelector id))
    (element_querySelector n (IdSelector id)) p.
Proof.
  unfold tree_at. intros Ht.
  unfold relocates, element_querySelector, gets, graft. cbn. f_equal. f_equal.
  rewrite length_moved, descendants_moved.
  rewrite (descendants_stable _ (k1 + length (document p)) _ _ _ Ht) by lia.
  induction (descendants _ _ _) as [|c cs IH]; [reflexivity|].
  cbn. rewrite has_id_moved. destruct (has_id _ _ c); [reflexivity|exact IH].
Qed.

(** One step of a page computation inside a browser computation. *)
Lemma bind_on_page {A B} (f : A -> A) (m' m : JS A) (K : A -> DOM B)
    p r s l h a p' :
  relocates d0 f m' m p ->
  m p = (Return a, p') ->
  (on_page m' ≫= K) (mkBrowser (graft d0 p) r s l h) =
  K (f a) (mkBrowser (graft d0 p') r s l h).
Proof.
  unfold relocates, mbind, DOM_bind, on_page. cbn. intros -> ->. reflexivity.
Qed.

End RelocationMore.

Lemma bind_assoc_dom {A B C} (m : DOM A) (f : A -> DOM B) (K : B -> DOM C) b :
  ((m ≫= f) ≫= K) b = (m ≫= fun x => f x ≫= K) b.
Proof. unfold mbind, DOM_bind. destruct (m b) as [[a|e] b']; reflexivity. Qed.

Lemma bind_deref_Some {B} n (K : NodeId -> DOM B) b :
  (deref (Some n) ≫= K) b = K n b.
Proof. reflexivity. Qed.

Lemma assign_style_run {B} n props (K : unit -> DOM B) : forall p r s l h,
  (assign_style n props ≫= K) (mkBrowser p r s l h) =
  K tt (mkBrowser p r (rev ((fun kv => (n, kv)) <$> props) ++ s) l h).
Proof.
  induction props as [|[prop value] props IH]; intros p r s l h;
    [reflexivity|].
  cbn [assign_style]. unfold mbind, DOM_bind in IH |- *.
  unfold set_style, modify_dom, set_styleLog.
  cbn [page documentElement styleLog clickListeners hostCalls].
  rewrite IH. cbn [fmap list_fmap rev]. now rewrite <- app_assoc.
Qed.

(** ** [createModal], step by step *)

Ltac page_step d lem :=
  erewrite (bind_on_page d);
  [ | apply lem | lazy; reflexivity ]; cbn beta.

Ltac query_step d :=
  rewrite bind_assoc_dom;
  erewrite (bind_on_page d);
  [ | eapply element_querySelector_relocates; lazy; reflexivity
    | lazy; reflexivity ];
  cbn beta; cbn [fmap option_fmap option_map];
  rewrite bind_deref_Some.

Ltac style_step :=
  rewrite assign_style_run; cbn [rev fmap list_fmap app].

(** Everything [createModal] does before it looks for the body. *)
Lemma createModal_build w d cs ho r s l h :
  createModal (mkBrowser (mkPage w d cs ho) r s l h) =
  (body ← document_querySelector (TypeSelector "body") ≫= deref;
   appendChild body (length d + 0))
    (mkBrowser (mkPage w (d ++ (shift (length d) <$> MODAL_ELEMENTS)) cs ho)
       r (MODAL_STYLES (length d) ++ s) l h).
Proof.
  replace (mkPage w d cs ho) with (graft d (mkPage w [] cs ho))
    by (unfold graft, set_document; cbn; now rewrite app_nil_r).
  unfold createModal.
  page_step d createElement_relocates.
  page_step d setAttribute_relocates.
  page_step d set_innerHTML_html_relocates.
  style_step.
  query_step d. style_step.
  query_step d. style_step.
  query_step d. style_step.
  query_step d. style_step.
  reflexivity.
Qed.

(** ** Detached elements are invisible to the document *)

Lemma mapM_Some_In {A B} (f : A -> option B) l k x :
  mapM f l = Some k -> In x l -> exists y, f x = Some y.
Proof.
  revert k. induction l as [|a l IH]; intros k Hk Hx; [destruct Hx|].
  cbn in Hk. destruct (f a) as [y|] eqn:Hy; [|discriminate]. cbn in Hk.
  destruct (mapM f l) as [k'|]; [|discriminate].
  destruct Hx as [<-|Hx]; [now exists y|exact (IH _ eq_refl Hx)].
Qed.

Lemma walk_valid fuel (d : list Element) : forall n t,
  snapshot fuel d n = Some t ->
  forall x, In x (n :: descendants fuel d n) -> is_Some (d !! x).
Proof.
  induction fuel as [|fuel IH]; intros n t Hs x Hx; [discriminate|].
  cbn [snapshot descendants] in *.
  destruct (d !! n) as [e|] eqn:He; [|discriminate]. cbn in Hs.
  destruct (mapM (snapshot fuel d) (children e)) as [kids|] eqn:Hk;
    [|discriminate].
  destruct Hx as [<-|Hx]; [now rewrite He|].
  apply in_flat_map in Hx as (c & Hc & Hx).
  destruct (mapM_Some_In _ _ _ _ Hk Hc) as [tc Htc].
  exact (IH c tc Htc x Hx).
Qed.

Lemma document_nodes_valid b x :
  document_readable b = true -> In x (document_nodes b) ->
  x < length (document (page b)).
Proof.
  unfold document_readable, document_nodes.
  destruct (documentElement b) as [r|]; [|intros _ []].
  destruct (tree_at (page b) r) as [t|] eqn:Ht; [|discriminate].
  intros _ Hx. apply lookup_lt_is_Some.
  exact (walk_valid _ _ _ _ Ht x Hx).
Qed.

(** Elements added behind the store do not show in the document. *)
Lemma document_nodes_extend b extra :
  document_readable b = true ->
  document_nodes
    (set_page (set_document (document (page b) ++ extra) (page b)) b) =
  document_nodes b.
Proof.
  unfold document_readable, document_nodes. cbn.
  destruct (documentElement b) as [r|]; [|reflexivity].
  destruct (tree_at (page b) r) as [t|] eqn:Ht; [|discriminate].
  intros _.
  exact (nodes_at_extend (page b) (set_document _ (page b)) extra r t
           eq_refl Ht).
Qed.

Lemma select_all_extend b extra s :
  document_readable b = true ->
  (forall id tag, s <> InsideId id tag) ->
  select_all
    (set_page (set_document (document (page b) ++ extra) (page b)) b) s =
  select_all b s.
Proof.
  intros Hr Hs. unfold select_all. rewrite (document_nodes_extend _ _ Hr).
  assert (Hv := fun x => document_nodes_valid b x Hr).
  cbn [page set_page document set_document].
  induction (document_nodes b) as [|x l IH]; [reflexivity|].
  cbn [List.filter].
  assert (Hx : x < length (document (page b))) by (apply Hv; now left).
  assert (Hm : matches (document (page b) ++ extra) s x =
               matches (document (page b)) s x).
  { destruct s as [tag|id|id tag]; cbn [matches].
    - unfold has_tag. now rewrite lookup_app_l.
    - unfold has_id. now rewrite lookup_app_l.
    - now contradiction (Hs id tag). }
  rewrite Hm, IH; [reflexivity|]. intros y Hy. apply Hv. now right.
Qed.

(** ** Attaching the modal *)

Lemma filter_all {A} (P : A -> bool) l :
  Forall (fun x => P x = true) l -> List.filter P l = l.
Proof.
  induction 1 as [|x l Hx _ IH]; [reflexivity|]. cbn. now rewrite Hx, IH.
Qed.

Lemma detach_closed (d : list Element) child :
  store_closed d = true -> length d <= child ->
  (fun e => mkElement (tagName e) (attributes e)
              (List.filter (fun c => negb (Nat.eqb c child)) (children e)))
    <$> d = d.
Proof.
  unfold store_closed. generalize (length d) at 1 2. intros k Hd Hk.
  induction d as [|e l IH]; [reflexivity|].
  cbn in Hd. apply andb_true_iff in Hd as [He Hl].
  cbn. rewrite (IH Hl). f_equal. destruct e as [tag attrs kids]. cbn in *.
  f_equal. apply filter_all. apply Forall_forall. intros c Hc.
  rewrite forallb_forall in He.
  specialize (He c (proj1 (list_elem_of_In _ _) Hc)).
  apply Nat.ltb_lt in He. apply negb_true_iff, Nat.eqb_neq. lia.
Qed.

Lemma detach_moved k child (l : list Element) :
  (fun e => mkElement (tagName e) (attributes e)
              (List.filter (fun c => negb (Nat.eqb c (k + child)))
                 (children e)))
    <$> (shift k <$> l) =
  shift k <$>
    ((fun e => mkElement (tagName e) (attributes e)
                 (List.filter (fun c => negb (Nat.eqb c child)) (children e)))
       <$> l).
Proof.
  rewrite <- !list_fmap_compose. apply list_fmap_ext. intros _ e _.
  unfold shift. cbn. f_equal.
  induction (children e) as [|c cs IH]; [reflexivity|].
  cbn. replace (Nat.eqb (k + c) (k + child)) with (Nat.eqb c child)
    by (destruct (Nat.eqb_spec c child), (Nat.eqb_spec (k + c) (k + child));
        try reflexivity; lia).
  destruct (Nat.eqb c child); cbn; now rewrite IH.
Qed.

Lemma select_after_build w d cs ho r s l h sel :
  document_readable (mkBrowser (mkPage w d cs ho) r s l h) = true ->
  (forall id tag, sel <> InsideId id tag) ->
  select_all
    (mkBrowser (mkPage w (d ++ (shift (length d) <$> MODAL_ELEMENTS)) cs ho)
       r (MODAL_STYLES (length d) ++ s) l h) sel =
  select_all (mkBrowser (mkPage w d cs ho) r s l h) sel.
Proof.
  intros Hread Hsel.
  exact (select_all_extend (mkBrowser (mkPage w d cs ho) r s l h)
           (shift (length d) <$> MODAL_ELEMENTS) sel Hread Hsel).
Qed.

Lemma createModal_run w d cs ho r s l h body :
  store_closed d = true ->
  document_readable (mkBrowser (mkPage w d cs ho) r s l h) = true ->
  select (mkBrowser (mkPage w d cs ho) r s l h) (TypeSelector "body")
    = Some body ->
  createModal (mkBrowser (mkPage w d cs ho) r s l h) =
  (Return tt,
   mkBrowser
     (mkPage w
        (alter (fun e => mkElement (tagName e) (attributes e)
                           (children e ++ [length d])) body d
         ++ (shift (length d) <$> MODAL_ELEMENTS)) cs ho)
     r (MODAL_STYLES (length d) ++ s) l h).
Proof.
  intros Hclosed Hread Hbody. rewrite createModal_build.
  set (b := mkBrowser (mkPage w d cs ho) r s l h) in *.
  set (b1 := mkBrowser _ r (MODAL_STYLES (length d) ++ s) l h).
  assert (Hsel : select b1 (TypeSelector "body") = Some body).
  { unfold select, b1.
    rewrite (select_after_build w d cs ho r s l h _ Hread) by discriminate.
    exact Hbody. }
  rewrite (bind_Return_dom _ _ _ _ _ (query_found _ _ _ Hsel)).
  assert (Hlt : body < length d).
  { apply (document_nodes_valid b body Hread).
    exact (proj2 (select_matches _ _ _ Hbody)). }
  unfold appendChild, on_page, modify, b1, set_document, set_page.
  cbn [fst snd page document window calls documentElement styleLog
       clickListeners hostCalls].
  rewrite fmap_app, (detach_closed d _ Hclosed) by lia.
  rewrite detach_moved.
  change ((fun e => mkElement (tagName e) (attributes e)
             (List.filter (fun c => negb (Nat.eqb c 0)) (children e)))
            <$> MODAL_ELEMENTS) with MODAL_ELEMENTS.
  rewrite alter_app_l by exact Hlt.
  rewrite Nat.add_0_r. reflexivity.
Qed.

Lemma createModal_run_no_body w d cs ho r s l h :
  document_readable (mkBrowser (mkPage w d cs ho) r s l h) = true ->
  select (mkBrowser (mkPage w d cs ho) r s l h) (TypeSelector "body") = None ->
  createModal (mkBrowser (mkPage w d cs ho) r s l h) =
  (Throw (TypeError "Cannot read properties of null"),
   mkBrowser
     (mkPage w (d ++ (shift (length d) <$> MODAL_ELEMENTS)) cs ho)
     r (MODAL_STYLES (length d) ++ s) l h).
Proof.
  intros Hread Hbody. rewrite createModal_build.
  apply bind_Throw_dom, query_missing. unfold select.
  rewrite (select_after_build w d cs ho r s l h _ Hread) by discriminate.
  exact Hbody.
Qed.

(** ** The document after [createModal] *)

Lemma head_filter_unique {A} (P : A -> bool) l x :
  In x l -> P x = true -> (forall y, In y l -> P y = true -> y = x) ->
  head (List.filter P l) = Some x.
Proof.
  induction l as [|y l IH]; intros Hx Px Hu; [destruct Hx|].
  cbn. destruct (P y) eqn:Py.
  - cbn. f_equal. apply Hu; [now left|exact Py].
  - destruct Hx as [->|Hx]; [congruence|].
    apply IH; [exact Hx|exact Px|]. intros z Hz. apply Hu. now right.
Qed.

Section AfterCreateModal.
Variable d : list Element.
Variable body : NodeId.
Abbreviation attached :=
  (alter (fun e => mkElement (tagName e) (attributes e)
                     (children e ++ [length d])) body d).
Abbreviation with_modal := (attached ++ (shift (length d) <$> MODAL_ELEMENTS)).

Lemma length_with_modal : length with_modal = length d + 5.
Proof. now rewrite length_app, length_alter, length_fmap. Qed.

Lemma modal_descendants fuel :
  descendants (S (S fuel)) with_modal (length d + 0) =
  [length d + 1; length d + 2; length d + 3; length d + 4].
Proof.
  pose proof (descendants_moved attached (S (S fuel)) MODAL_ELEMENTS 0) as H.
  rewrite length_alter in H. rewrite H. reflexivity.
Qed.

Lemma reach_modal fuel : forall n t,
  snapshot fuel d n = Some t ->
  In body (n :: descendants fuel d n) ->
  forall j, j < 5 -> In (length d + j) (descendants (fuel + 5) with_modal n).
Proof.
  induction fuel as [|fuel IH]; intros n t Hs Hb j Hj; [discriminate|].
  cbn [snapshot] in Hs. destruct (d !! n) as [e|] eqn:He; [|discriminate].
  cbn in Hs.
  destruct (mapM (snapshot fuel d) (children e)) as [kids|] eqn:Hk;
    [|discriminate].
  assert (Hn : n < length d) by (eapply lookup_lt_Some; exact He).
  change (S fuel + 5) with (S (fuel + 5)). cbn [descendants].
  rewrite lookup_app_l by (now rewrite length_alter).
  destruct (decide (body = n)) as [<-|Hne].
  - rewrite list_lookup_alter_eq, He. cbn [fmap option_fmap option_map children].
    rewrite flat_map_app. apply in_or_app. right. cbn [flat_map].
    rewrite app_nil_r. destruct j as [|j]; [left; lia|right].
    assert (Hm : descendants (fuel + 5) with_modal (length d) =
                 [length d + 1; length d + 2; length d + 3; length d + 4]).
    { replace (fuel + 5) with (S (S (fuel + 3))) by lia.
      rewrite <- (modal_descendants (fuel + 3)). now rewrite Nat.add_0_r. }
    rewrite Hm.
    do 4 (destruct j as [|j]; [cbn; auto 6|]). lia.
  - rewrite list_lookup_alter_ne, He by exact Hne.
    destruct Hb as [Hb|Hb]; [congruence|].
    cbn [descendants] in Hb. rewrite He in Hb.
    apply in_flat_map in Hb as (c & Hc & Hb).
    apply in_flat_map. exists c. split; [exact Hc|]. right.
    destruct (mapM_Some_In _ _ _ _ Hk Hc) as [tc Htc].
    exact (IH c tc Htc Hb j Hj).
Qed.

Lemma has_id_old id x :
  x < length d -> has_id with_modal id x = has_id d id x.
Proof.
  intros Hx. unfold has_id.
  rewrite lookup_app_l by (now rewrite length_alter).
  destruct (decide (body = x)) as [<-|Hne].
  - rewrite list_lookup_alter_eq. now destruct (d !! body).
  - now rewrite list_lookup_alter_ne.
Qed.

Lemma has_id_new id j :
  has_id with_modal id (length d + j) = has_id MODAL_ELEMENTS id j.
Proof.
  pose proof (has_id_moved attached MODAL_ELEMENTS id j) as H.
  now rewrite length_alter in H.
Qed.

Lemma has_id_unused ids id x :
  ids_unused ids d = true -> In id ids -> has_id d id x = false.
Proof.
  intros Hu Hid. unfold has_id.
  destruct (d !! x) as [e|] eqn:He; [|reflexivity].
  unfold ids_unused in Hu. rewrite forallb_forall in Hu.
  specialize (Hu e (proj1 (list_elem_of_In _ _)
                      (list_elem_of_lookup_2 _ _ _ He))).
  destruct (get_attribute "id" (attributes e)) as [v|]; [|reflexivity].
  destruct (String.eqb_spec v id) as [->|_]; [|reflexivity].
  apply negb_true_iff in Hu.
  assert (Hex : existsb (String.eqb id) ids = true)
    by (apply existsb_exists; exists id; split;
        [exact Hid|apply String.eqb_refl]).
  congruence.
Qed.

(** The one element with a given modal id is the new one. *)
Lemma modal_id_unique id j x :
  ids_unused MODAL_IDS d = true ->
  MODAL_IDS !! j = Some id ->
  has_id with_modal id x = true -> x = length d + j.
Proof.
  intros Hu Hj Hx.
  assert (Hin : In id MODAL_IDS)
    by (apply list_elem_of_In, list_elem_of_lookup; now exists j).
  destruct (Nat.lt_ge_cases x (length d)) as [Hlt|Hge].
  - rewrite (has_id_old _ _ Hlt), (has_id_unused _ _ _ Hu Hin) in Hx.
    discriminate.
  - replace x with (length d + (x - length d)) in Hx |- * by lia.
    rewrite has_id_new in Hx. f_equal.
    generalize dependent (x - length d). intros i Hi.
    do 5 (destruct j as [|j];
          [injection Hj as <-;
           do 5 (destruct i as [|i]; [first [reflexivity|discriminate]|]);
           discriminate|]).
    discriminate.
Qed.

End AfterCreateModal.

Lemma createModal_finds b body j id :
  store_closed (document (page b)) = true ->
  document_readable b = true ->
  select b (TypeSelector "body") = Some body ->
  ids_unused MODAL_IDS (document (page b)) = true ->
  MODAL_IDS !! j = Some id ->
  select (browser_after createModal b) (IdSelector id) =
  Some (length (document (page b)) + j).
Proof.
  destruct b as [[w d cs ho] r s l h]. cbn [page document].
  intros Hclosed Hread Hbody Hunused Hj. unfold browser_after.
  rewrite (createModal_run _ _ _ _ _ _ _ _ body Hclosed Hread Hbody).
  cbn [snd]. unfold select, select_all.
  assert (Hj5 : j < 5) by (apply lookup_lt_Some in Hj; exact Hj).
  apply head_filter_unique.
  - unfold document_nodes. cbn [documentElement page document].
    pose proof (proj2 (select_matches _ _ _ Hbody)) as Hin.
    unfold document_readable, document_nodes in Hread, Hin.
    cbn [documentElement page document] in Hread, Hin.
    destruct r as [r|]; [|destruct Hin].
    destruct (tree_at (mkPage w d cs ho) r) as [t|] eqn:Ht; [|discriminate].
    right. rewrite length_with_modal.
    exact (reach_modal d body _ r t Ht Hin j Hj5).
  - cbn [matches page document]. rewrite has_id_new.
    do 5 (destruct j as [|j]; [injection Hj as <-; reflexivity|]).
    discriminate.
  - intros y _ Hy. cbn [matches page document] in Hy.
    exact (modal_id_unique d body id j y Hunused Hj Hy).
Qed.

Lemma eqb_add_cancel k i j : Nat.eqb (k + i) (k + j) = Nat.eqb i j.
Proof.
  destruct (Nat.eqb_spec i j), (Nat.eqb_spec (k + i) (k + j));
    try reflexivity; lia.
Qed.

(** X7: in a document with a body and none of the modal's ids in use,
    [createModal] succeeds; afterwards each of the five ids selects the
    element created for it, and the modal is hidden ([display] is [none],
    for a browser that accepts this value). *)
Theorem createModal_adds_hidden_modal
    (css_valid : string -> string -> bool) (b : Browser) (body : NodeId) :
  store_closed (document (page b)) = true ->
  document_readable b = true ->
  select b (TypeSelector "body") = Some body ->
  ids_unused MODAL_IDS (document (page b)) = true ->
  css_valid "display" "none" = true ->
  outcome createModal b = Return tt /\
  select (browser_after createModal b) (IdSelector "presentationModal")
    = Some (length (document (page b)) + 0) /\
  select (browser_after createModal b) (IdSelector "modalImage")
    = Some (length (document (page b)) + 1) /\
  select (browser_after createModal b) (IdSelector "closeButton")
    = Some (length (document (page b)) + 2) /\
  select (browser_after createModal b) (IdSelector "previousButton")
    = Some (length (document (page b)) + 3) /\
  select (browser_after createModal b) (IdSelector "nextButton")
    = Some (length (document (page b)) + 4) /\
  style_of css_valid (browser_after createModal b)
    (length (document (page b)) + 0) "display" = Some "none".
Proof.
  intros Hclosed Hread Hbody Hunused Hnone.
  split.
  { destruct b as [[w d cs ho] r s l h]. cbn [page document] in *.
    unfold outcome.
    now rewrite (createModal_run _ _ _ _ _ _ _ _ body Hclosed Hread Hbody). }
  do 5 (split; [now apply (createModal_finds b body _ _ Hclosed Hread Hbody
                             Hunused)|]).
  destruct b as [[w d cs ho] r s l h]. cbn [page document] in *.
  unfold browser_after.
  rewrite (createModal_run _ _ _ _ _ _ _ _ body Hclosed Hread Hbody).
  cbn [snd page document]. unfold style_of, MODAL_STYLES.
  cbn -[Nat.eqb Nat.add]. rewrite !eqb_add_cancel. cbn.
  now rewrite Hnone.
Qed.

Lemma createModal_adds_hidden_modal_witness :
  outcome createModal bare_browser = Return tt /\
  select (browser_after createModal bare_browser)
    (IdSelector "presentationModal") = Some 2 /\
  select (browser_after createModal bare_browser) (IdSelector "nextButton")
    = Some 6 /\
  style_of css_example (browser_after createModal bare_browser) 2 "display"
    = Some "none".
Proof.
  destruct (createModal_adds_hidden_modal css_example bare_browser 1
              eq_refl eq_refl eq_refl eq_refl eq_refl)
    as (H0 & H1 & _ & _ & _ & H5 & H6).
  split; [exact H0|]. split; [exact H1|]. split; [exact H5|exact H6].
Defined.

Lemma find_app_skip {A} (P : A -> bool) pre l :
  Forall (fun x => P x = false) pre -> find P (pre ++ l) = find P l.
Proof. induction 1 as [|x pre Hx _ IH]; [reflexivity|]. cbn. now rewrite Hx. Qed.

Lemma MODAL_STYLES_new k : Forall (fun x => k <= fst x) (MODAL_STYLES k).
Proof. unfold MODAL_STYLES. repeat constructor; cbn [fst]; lia. Qed.

Lemma style_of_old css_valid p p' r s l h k n prop :
  n < k ->
  style_of css_valid (mkBrowser p' r (MODAL_STYLES k ++ s) l h) n prop =
  style_of css_valid (mkBrowser p r s l h) n prop.
Proof.
  intros Hn. unfold style_of. cbn [styleLog]. f_equal.
  apply find_app_skip. eapply Forall_impl; [apply MODAL_STYLES_new|].
  cbn beta. intros x Hx.
  replace (Nat.eqb (fst x) n) with false
    by (symmetry; apply Nat.eqb_neq; lia).
  reflexivity.
Qed.

(** X8: [createModal] makes the modal the last child of the body and
    leaves everything that existed alone: the body keeps its tag,
    attributes and earlier children, every other element is unchanged,
    and so are the styles of the existing elements, the click listeners,
    the window and the logs. *)
Theorem createModal_only_adds (b : Browser) (body : NodeId) :
  store_closed (document (page b)) = true ->
  document_readable b = true ->
  select b (TypeSelector "body") = Some body ->
  children <$> document (page (browser_after createModal b)) !! body =
    (fun e => children e ++ [length (document (page b))]) <$>
    document (page b) !! body /\
  tagName <$> document (page (browser_after createModal b)) !! body =
    tagName <$> document (page b) !! body /\
  attributes <$> document (page (browser_after createModal b)) !! body =
    attributes <$> document (page b) !! body /\
  (forall n, n <> body -> n < length (document (page b)) ->
     document (page (browser_after createModal b)) !! n =
     document (page b) !! n) /\
  length (document (page (browser_after createModal b))) =
    length (document (page b)) + 5 /\
  (forall css_valid n prop,
     n < length (document (page b)) ->
     style_of css_valid (browser_after createModal b) n prop =
     style_of css_valid b n prop) /\
  clickListeners (browser_after createModal b) = clickListeners b /\
  hostCalls (browser_after createModal b) = hostCalls b /\
  documentElement (browser_after createModal b) = documentElement b /\
  window (page (browser_after createModal b)) = window (page b) /\
  calls (page (browser_after createModal b)) = calls (page b).
Proof.
  destruct b as [[w d cs ho] r s l h]. cbn [page document].
  intros Hclosed Hread Hbody. unfold browser_after.
  rewrite (createModal_run _ _ _ _ _ _ _ _ body Hclosed Hread Hbody).
  cbn [snd page document window calls clickListeners hostCalls
       documentElement].
  assert (Hlt : body < length d).
  { apply (document_nodes_valid _ body Hread).
    exact (proj2 (select_matches _ _ _ Hbody)). }
  assert (Hb : forall {B} (proj : Element -> B),
            proj <$> (alter (fun e => mkElement (tagName e) (attributes e)
                                        (children e ++ [length d])) body d
                      ++ (shift (length d) <$> MODAL_ELEMENTS)) !! body =
            (fun e => proj (mkElement (tagName e) (attributes e)
                              (children e ++ [length d]))) <$> d !! body).
  { intros B proj. rewrite lookup_app_l by (now rewrite length_alter).
    rewrite list_lookup_alter_eq. now destruct (d !! body). }
  split; [apply (Hb _ children)|].
  split; [apply (Hb _ tagName)|].
  split; [apply (Hb _ attributes)|].
  split.
  { intros n Hne Hn. rewrite lookup_app_l by (now rewrite length_alter).
    now rewrite list_lookup_alter_ne. }
  split; [apply length_with_modal|].
  split; [intros css_valid n prop Hn; now apply style_of_old|].
  repeat split.
Qed.

Lemma createModal_only_adds_witness :
  children <$> document (page (browser_after createModal bare_browser)) !! 1
    = Some [2] /\
  document (page (browser_after createModal bare_browser)) !! 0
    = Some (mkElement "html" [] [1]).
Proof.
  destruct (createModal_only_adds bare_browser 1 eq_refl eq_refl eq_refl)
    as (H1 & _ & _ & H4 & _).
  split; [exact H1|]. exact (H4 0 ltac:(lia) ltac:(simpl; lia)).
Defined.

(** X9: in a document without a body, [createModal] throws a [TypeError]
    only after it has built and styled the modal: the five elements exist
    in the store, but they are not part of the document and no selector
    for a tag or an id finds them. *)
Theorem createModal_without_body (b : Browser) :
  document_readable b = true ->
  select b (TypeSelector "body") = None ->
  outcome createModal b = Throw (TypeError "Cannot read properties of null") /\
  document (page (browser_after createModal b)) =
    document (page b) ++
    (shift (length (document (page b))) <$> MODAL_ELEMENTS) /\
  styleLog (browser_after createModal b) =
    MODAL_STYLES (length (document (page b))) ++ styleLog b /\
  document_nodes (browser_after createModal b) = document_nodes b /\
  (forall id, select (browser_after createModal b) (IdSelector id) =
              select b (IdSelector id)) /\
  (forall tag, select (browser_after createModal b) (TypeSelector tag) =
               select b (TypeSelector tag)).
Proof.
  destruct b as [[w d cs ho] r s l h]. cbn [page document].
  intros Hread Hbody. unfold outcome, browser_after.
  rewrite (createModal_run_no_body _ _ _ _ _ _ _ _ Hread Hbody).
  cbn [fst snd page document styleLog].
  split; [reflexivity|]. split; [reflexivity|]. split; [reflexivity|].
  split; [|split].
  - exact (document_nodes_extend (mkBrowser (mkPage w d cs ho) r s l h) _ Hread).
  - intros id. unfold select.
    now rewrite (select_after_build w d cs ho r s l h _ Hread).
  - intros tag. unfold select.
    now rewrite (select_after_build w d cs ho r s l h _ Hread).
Qed.

Lemma createModal_without_body_witness :
  outcome createModal bodiless_browser =
    Throw (TypeError "Cannot read properties of null") /\
  length (document (page (browser_after createModal bodiless_browser))) = 6 /\
  select (browser_after createModal bodiless_browser)
    (IdSelector "presentationModal") = None.
Proof.
  destruct (createModal_without_body bodiless_browser eq_refl eq_refl)
    as (H1 & H2 & _ & _ & H5 & _).
  split; [exact H1|]. split; [now rewrite H2|].
  now rewrite H5.
Defined.

(** X10: once the grid is in the document, [addImageClickHandlers]
    gives the i-th image of the grid (in document order) a listener that
    calls the callback with i: a click on that image calls it once, with
    i.  A second registration does not replace the first: both callbacks
    are called, in the order of registration. *)
Theorem addImageClickHandlers_click
    (callback callback' : FunId) (b : Browser) (i : nat) (n : NodeId) :
  NoDup (document_nodes b) ->
  images_are_leaves (document (page b)) = true ->
  select_all b (InsideId "imagesGrid" "img") !! i = Some n ->
  (forall a,
     In a (n :: ancestors (length (document (page b))) (document (page b)) n) ->
     listeners_on b a = []) ->
  outcome (addImageClickHandlers callback) b = Return tt /\
  page (browser_after (addImageClickHandlers callback) b) = page b /\
  hostCalls (browser_after (click n)
               (browser_after (addImageClickHandlers callback) b)) =
    hostCalls b ++ [IndexCall callback i] /\
  hostCalls (browser_after (click n)
               (browser_after (addImageClickHandlers callback;;
                               addImageClickHandlers callback') b)) =
    hostCalls b ++ [IndexCall callback i; IndexCall callback' i].
Proof.
  intros Hnd Hleaf Hi Hquiet.
  assert (Hnd' : NoDup (select_all b (InsideId "imagesGrid" "img"))).
  { apply NoDup_ListNoDup, List.NoDup_filter, NoDup_ListNoDup, Hnd. }
  assert (Hflat : forall (b0 : Browser) l,
            (forall a, In a l -> listeners_on b0 a = []) ->
            flat_map (fun a => call_listener n <$> listeners_on b0 a) l = []).
  { intros b0 l Hl. induction l as [|a l IH]; [reflexivity|].
    cbn. rewrite (Hl a (or_introl eq_refl)). cbn. apply IH.
    intros a' Ha'. apply Hl. now right. }
  split; [unfold outcome; now rewrite addImageClickHandlers_run|].
  split; [unfold browser_after; now rewrite addImageClickHandlers_run|].
  split.
  - rewrite (click_after_addImageClickHandlers _ _ _ _ Hnd Hleaf Hi).
    rewrite (Hquiet n (or_introl eq_refl)).
    rewrite Hflat by (intros a Ha; apply Hquiet; now right).
    reflexivity.
  - unfold browser_after at 2.
    rewrite (bind_Return_dom _ _ _ _ _ (addImageClickHandlers_run callback b)).
    set (b1 := set_clickListeners _ b).
    change (snd (addImageClickHandlers callback' b1))
      with (browser_after (addImageClickHandlers callback') b1).
    rewrite (click_after_addImageClickHandlers callback' b1 i n Hnd Hleaf Hi).
    assert (H1 : listeners_on b1 n = [IndexListener callback i]).
    { unfold b1. rewrite listeners_on_app, (Hquiet n (or_introl eq_refl)).
      now rewrite (index_listeners_on callback _ 0 i n Hnd' Hi). }
    rewrite H1, Hflat; [reflexivity|].
    intros a Ha. unfold b1. rewrite listeners_on_app.
    rewrite (Hquiet a (or_intror Ha)).
    now rewrite (index_listeners_off _ _ _ _
                   (images_not_ancestors b n a Hleaf Ha)).
Qed.

Lemma addImageClickHandlers_click_witness :
  hostCalls (browser_after (click 10)
               (browser_after (addImageClickHandlers 5) gallery_browser)) =
    [IndexCall 5 2] /\
  hostCalls (browser_after (click 10)
               (browser_after (addImageClickHandlers 5;;
                               addImageClickHandlers 6) gallery_browser)) =
    [IndexCall 5 2; IndexCall 6 2].
Proof.
  destruct (addImageClickHandlers_click 5 6 gallery_browser 2 10
              ltac:(vm_compute; apply (bool_decide_unpack _); vm_compute;
                    exact I)
              eq_refl eq_refl (fun a _ => eq_refl))
    as (_ & _ & H3 & H4).
  split; [exact H3|exact H4].
Defined.

(** ** [initModal] and the buttons *)

Lemma add_once_elem l x : x ∈ add_once l x.
Proof.
  unfold add_once. destruct (bool_decide_reflect (x ∈ l)); [assumption|].
  apply elem_of_app. right. apply list_elem_of_singleton. reflexivity.
Qed.

Lemma add_once_mono l x y : x ∈ l -> x ∈ add_once l y.
Proof.
  intros Hx. unfold add_once. destruct (bool_decide (y ∈ l)); [assumption|].
  apply elem_of_app. now left.
Qed.

Lemma add_once_same l x : x ∈ l -> add_once l x = l.
Proof. intros Hx. unfold add_once. now rewrite bool_decide_true. Qed.

Lemma initModal_run f g h b c p x :
  select b (IdSelector "closeButton") = Some c ->
  select b (IdSelector "previousButton") = Some p ->
  select b (IdSelector "nextButton") = Some x ->
  initModal f g h b =
  (Return tt,
   set_clickListeners
     (add_once
        (add_once (add_once (clickListeners b) (c, HostListener f))
           (p, HostListener g))
        (x, HostListener h)) b).
Proof.
  intros Hc Hp Hx. unfold initModal.
  rewrite (bind_Return_dom _ _ _ _ _ (query_found _ _ _ Hc)).
  rewrite (bind_Return_dom _ _ _ _ _ (addEventListener_host c f b)).
  set (b1 := set_clickListeners _ b).
  assert (Hp1 : select b1 (IdSelector "previousButton") = Some p) by exact Hp.
  rewrite (bind_Return_dom _ _ _ _ _ (query_found _ _ _ Hp1)).
  rewrite (bind_Return_dom _ _ _ _ _ (addEventListener_host p g b1)).
  set (b2 := set_clickListeners _ b1).
  assert (Hx2 : select b2 (IdSelector "nextButton") = Some x) by exact Hx.
  rewrite (bind_Return_dom _ _ _ _ _ (query_found _ _ _ Hx2)).
  rewrite addEventListener_host. reflexivity.
Qed.

Lemma different_ids b id1 id2 n1 n2 :
  id1 <> id2 ->
  select b (IdSelector id1) = Some n1 ->
  select b (IdSelector id2) = Some n2 ->
  n1 <> n2.
Proof.
  intros Hne H1 H2 ->.
  destruct (has_id_lookup _ _ _ (proj1 (select_matches _ _ _ H1)))
    as (e1 & He1 & Hid1).
  destruct (has_id_lookup _ _ _ (proj1 (select_matches _ _ _ H2)))
    as (e2 & He2 & Hid2).
  congruence.
Qed.

Lemma leaf_not_ancestor d n a fuel :
  is_leaf d a = true -> ~ In a (ancestors fuel d n).
Proof.
  intros Hleaf Ha.
  destruct (ancestors_have_children _ _ _ _ Ha) as (e & He & Hkids).
  unfold is_leaf in Hleaf. rewrite He in Hleaf.
  destruct (children e); [now apply Hkids|discriminate].
Qed.

(** The calls made by a click on [target] when the only listeners are
    those of three leaves, one of which is the target. *)
Lemma click_button b F G H target n2 n3 :
  clickListeners b =
    [(target, HostListener F); (n2, HostListener G); (n3, HostListener H)] \/
  clickListeners b =
    [(n2, HostListener G); (target, HostListener F); (n3, HostListener H)] \/
  clickListeners b =
    [(n2, HostListener G); (n3, HostListener H); (target, HostListener F)] ->
  target <> n2 -> target <> n3 ->
  is_leaf (document (page b)) target = true ->
  is_leaf (document (page b)) n2 = true ->
  is_leaf (document (page b)) n3 = true ->
  hostCalls (browser_after (click target) b) =
  hostCalls b ++ [EventCall F target].
Proof.
  intros Hl H2 H3 L1 L2 L3. unfold browser_after, click, modify_dom.
  cbn [snd hostCalls set_hostCalls flat_map]. f_equal.
  assert (Hown : listeners_on b target = [HostListener F]).
  { unfold listeners_on.
    destruct Hl as [->|[->| ->]]; cbn -[Nat.eqb];
      rewrite Nat.eqb_refl;
      rewrite (proj2 (Nat.eqb_neq n2 target)) by congruence;
      rewrite (proj2 (Nat.eqb_neq n3 target)) by congruence; reflexivity. }
  rewrite Hown. cbn [fmap list_fmap call_listener app]. f_equal.
  set (l := ancestors _ _ target).
  assert (Hanc : forall a, In a l -> a <> target /\ a <> n2 /\ a <> n3).
  { intros a Ha. repeat split; intros ->;
      eapply leaf_not_ancestor; try exact Ha; assumption. }
  clearbody l. induction l as [|a l IH]; [reflexivity|].
  cbn [flat_map]. rewrite IH by (intros a' Ha'; apply Hanc; now right).
  destruct (Hanc a (or_introl eq_refl)) as (A1 & A2 & A3).
  unfold listeners_on.
  destruct Hl as [->|[->| ->]]; cbn -[Nat.eqb];
    rewrite (proj2 (Nat.eqb_neq target a)) by congruence;
    rewrite (proj2 (Nat.eqb_neq n2 a)) by congruence;
    rewrite (proj2 (Nat.eqb_neq n3 a)) by congruence; reflexivity.
Qed.

Lemma initModal_after f g h b c p x :
  select b (IdSelector "closeButton") = Some c ->
  select b (IdSelector "previousButton") = Some p ->
  select b (IdSelector "nextButton") = Some x ->
  initModal f g h b = (Return tt, browser_after (initModal f g h) b) /\
  page (browser_after (initModal f g h) b) = page b /\
  hostCalls (browser_after (initModal f g h) b) = hostCalls b /\
  (forall l, In l (clickListeners b) ->
             In l (clickListeners (browser_after (initModal f g h) b))) /\
  In (c, HostListener f) (clickListeners (browser_after (initModal f g h) b)) /\
  In (p, HostListener g) (clickListeners (browser_after (initModal f g h) b)) /\
  In (x, HostListener h) (clickListeners (browser_after (initModal f g h) b)) /\
  (clickListeners b = [] ->
   clickListeners (browser_after (initModal f g h) b) =
   [(c, HostListener f); (p, HostListener g); (x, HostListener h)]).
Proof.
  intros Hc Hp Hx.
  assert (Hcp : c <> p) by (eapply (different_ids b); [|exact Hc|exact Hp];
                            discriminate).
  assert (Hcx : c <> x) by (eapply (different_ids b); [|exact Hc|exact Hx];
                            discriminate).
  assert (Hpx : p <> x) by (eapply (different_ids b); [|exact Hp|exact Hx];
                            discriminate).
  unfold browser_after. rewrite (initModal_run f g h b c p x Hc Hp Hx).
  cbn [snd page hostCalls clickListeners set_clickListeners].
  split; [reflexivity|]. split; [reflexivity|]. split; [reflexivity|].
  split; [|split; [|split; [|split]]].
  - intros l Hl. apply list_elem_of_In. do 3 apply add_once_mono.
    now apply list_elem_of_In.
  - apply list_elem_of_In. do 2 apply add_once_mono. apply add_once_elem.
  - apply list_elem_of_In. apply add_once_mono, add_once_elem.
  - apply list_elem_of_In, add_once_elem.
  - intros Hnone. rewrite Hnone. unfold add_once.
    rewrite (bool_decide_false ((c, HostListener f) ∈ []))
      by apply not_elem_of_nil.
    cbn [app].
    rewrite (bool_decide_false (_ ∈ [(c, HostListener f)]))
      by (rewrite list_elem_of_singleton; congruence).
    cbn [app].
    rewrite bool_decide_false
      by (rewrite !elem_of_cons, elem_of_nil; intros [|[|[]]];
          congruence).
    reflexivity.
Qed.

Lemma initModal_select f g h b c p x s :
  select b (IdSelector "closeButton") = Some c ->
  select b (IdSelector "previousButton") = Some p ->
  select b (IdSelector "nextButton") = Some x ->
  select (browser_after (initModal f g h) b) s = select b s.
Proof.
  intros Hc Hp Hx. unfold browser_after.
  now rewrite (initModal_run f g h b c p x Hc Hp Hx).
Qed.

(** What a click on each button calls after [initModal], when no listener
    was registered before and the buttons have no child elements. *)
Lemma initModal_clicks f g h b c p x :
  select b (IdSelector "closeButton") = Some c ->
  select b (IdSelector "previousButton") = Some p ->
  select b (IdSelector "nextButton") = Some x ->
  clickListeners b = [] ->
  is_leaf (document (page b)) c = true ->
  is_leaf (document (page b)) p = true ->
  is_leaf (document (page b)) x = true ->
  hostCalls (browser_after (click c) (browser_after (initModal f g h) b)) =
    hostCalls b ++ [EventCall f c] /\
  hostCalls (browser_after (click p) (browser_after (initModal f g h) b)) =
    hostCalls b ++ [EventCall g p] /\
  hostCalls (browser_after (click x) (browser_after (initModal f g h) b)) =
    hostCalls b ++ [EventCall h x].
Proof.
  intros Hc Hp Hx Hnone Lc Lp Lx.
  assert (Hcp : c <> p) by (eapply (different_ids b); [|exact Hc|exact Hp];
                            discriminate).
  assert (Hcx : c <> x) by (eapply (different_ids b); [|exact Hc|exact Hx];
                            discriminate).
  assert (Hpx : p <> x) by (eapply (different_ids b); [|exact Hp|exact Hx];
                            discriminate).
  destruct (initModal_after f g h b c p x Hc Hp Hx)
    as (_ & Hpage & Hcalls & _ & _ & _ & _ & Hl).
  specialize (Hl Hnone).
  set (b1 := browser_after (initModal f g h) b) in *.
  rewrite <- Hpage in Lc, Lp, Lx. rewrite <- Hcalls.
  split; [|split].
  - apply (click_button b1 f g h c p x); auto.
  - apply (click_button b1 g f h p c x); auto.
  - apply (click_button b1 h f g x c p); auto.
Qed.

(** X11: when the three buttons are in the document, [initModal] succeeds
    and changes only the click listeners; calling it again with the same
    functions changes nothing (a listener is registered once).  If no
    listener was registered before and the buttons have no child elements,
    a click on a button calls the function given for that button, once,
    with the click event, and no other function. *)
Theorem initModal_click (f g h : FunId) (b : Browser) (c p x : NodeId) :
  select b (IdSelector "closeButton") = Some c ->
  select b (IdSelector "previousButton") = Some p ->
  select b (IdSelector "nextButton") = Some x ->
  outcome (initModal f g h) b = Return tt /\
  (page (browser_after (initModal f g h) b) = page b /\
   documentElement (browser_after (initModal f g h) b) = documentElement b /\
   styleLog (browser_after (initModal f g h) b) = styleLog b /\
   hostCalls (browser_after (initModal f g h) b) = hostCalls b) /\
  initModal f g h (browser_after (initModal f g h) b) =
    (Return tt, browser_after (initModal f g h) b) /\
  (clickListeners b = [] ->
   is_leaf (document (page b)) c = true ->
   is_leaf (document (page b)) p = true ->
   is_leaf (document (page b)) x = true ->
   hostCalls (browser_after (click c) (browser_after (initModal f g h) b)) =
     hostCalls b ++ [EventCall f c] /\
   hostCalls (browser_after (click p) (browser_after (initModal f g h) b)) =
     hostCalls b ++ [EventCall g p] /\
   hostCalls (browser_after (click x) (browser_after (initModal f g h) b)) =
     hostCalls b ++ [EventCall h x]).
Proof.
  intros Hc Hp Hx.
  destruct (initModal_after f g h b c p x Hc Hp Hx)
    as (Hrun & Hpage & _ & _ & Hinc & Hinp & Hinx & _).
  split; [unfold outcome; now rewrite Hrun|].
  split.
  { unfold browser_after. rewrite (initModal_run f g h b c p x Hc Hp Hx).
    repeat split. }
  split; [|now apply initModal_clicks].
  pose proof (fun s => initModal_select f g h b c p x s Hc Hp Hx) as Hsel.
  set (b1 := browser_after (initModal f g h) b) in *.
  rewrite (initModal_run f g h b1 c p x) by (now rewrite Hsel). f_equal.
  rewrite (add_once_same _ (c, HostListener f))
    by now apply list_elem_of_In.
  rewrite (add_once_same _ (p, HostListener g))
    by now apply list_elem_of_In.
  rewrite (add_once_same _ (x, HostListener h))
    by now apply list_elem_of_In.
  now destruct b1.
Qed.

Lemma initModal_click_witness :
  initModal 10 11 12
    (browser_after (initModal 10 11 12)
       (browser_after createModal bare_browser)) =
    (Return tt,
     browser_after (initModal 10 11 12)
       (browser_after createModal bare_browser)) /\
  hostCalls (browser_after (click 5)
               (browser_after (initModal 10 11 12)
                  (browser_after createModal bare_browser))) =
    [EventCall 11 5].
Proof.
  destruct (initModal_click 10 11 12 (browser_after createModal bare_browser)
              4 5 6 eq_refl eq_refl eq_refl) as (_ & _ & H3 & H4).
  split; [exact H3|].
  exact (proj1 (proj2 (H4 eq_refl eq_refl eq_refl eq_refl))).
Defined.

(** ** The grid before it is appended *)

(** X12: the table [generateGrid] returns is not part of the document.
    The call leaves the elements that exist and the document as they are;
    no selector finds an element of the new table, and
    [addImageClickHandlers] registers no listener on any of them, until
    the caller appends the table. *)
Theorem generateGrid_detached
    (imageUrls : list string) (size : SizeClass) (callback : FunId)
    (b : Browser) :
  length imageUrls = 8 ->
  document_readable b = true ->
  exists grid b',
    on_page (generateGrid imageUrls size) b = (Return grid, b') /\
    (forall n, n < length (document (page b)) ->
       document (page b') !! n = document (page b) !! n) /\
    document_nodes b' = document_nodes b /\
    (forall n, In n (nodes_at (page b') grid) ->
       (forall s, ~ In n (select_all b' s)) /\
       listeners_on (browser_after (addImageClickHandlers callback) b') n =
         listeners_on b n).
Proof.
  intros Hlen Hread.
  destruct (generateGrid_returns imageUrls size (page b) Hlen)
    as (p' & l & Hrun & Hdoc & _ & Hw & Hc & _ & Hnodes & Hh).
  exists (length (document (page b))), (set_page p' b).
  assert (Hp' : p' = set_document (document (page b) ++ l) (page b)).
  { destruct p' as [w d cs ho]. cbn in Hdoc, Hw, Hc, Hh. subst.
    reflexivity. }
  assert (Hsame : document_nodes (set_page p' b) = document_nodes b)
    by (rewrite Hp'; now apply document_nodes_extend).
  split; [unfold on_page; now rewrite Hrun|].
  split; [intros n Hn; cbn; rewrite Hdoc; now apply lookup_app_l|].
  split; [exact Hsame|].
  intros n Hn.
  assert (Hnew : length (document (page b)) <= n).
  { cbn [page set_page] in Hn. rewrite Hnodes in Hn.
    apply in_seq in Hn. lia. }
  assert (Hoff : forall s, ~ In n (select_all (set_page p' b) s)).
  { intros s Hs. unfold select_all in Hs. apply List.filter_In in Hs as [Hs _].
    rewrite Hsame in Hs. apply (document_nodes_valid b n Hread) in Hs. lia. }
  split; [exact Hoff|].
  unfold browser_after. rewrite addImageClickHandlers_run. cbn [snd].
  rewrite listeners_on_app, index_listeners_off by apply Hoff.
  cbn [fmap list_fmap]. rewrite app_nil_r. reflexivity.
Qed.

Lemma generateGrid_detached_witness :
  exists grid b',
    on_page (generateGrid a_to_h large) bare_browser = (Return grid, b') /\
    document_nodes b' = [0; 1].
Proof.
  destruct (generateGrid_detached a_to_h large 5 bare_browser eq_refl eq_refl)
    as (grid & b' & Hrun & _ & Hn & _).
  exists grid, b'. split; [exact Hrun|exact Hn].
Defined.

(** ** The modal from creation to use *)

Lemma modal_buttons_are_leaves d body j :
  2 <= j < 5 ->
  is_leaf
    (alter (fun e => mkElement (tagName e) (attributes e)
                       (children e ++ [length d])) body d
     ++ (shift (length d) <$> MODAL_ELEMENTS)) (length d + j) = true.
Proof.
  intros Hj. unfold is_leaf.
  pose proof (lookup_moved
                (alter (fun e => mkElement (tagName e) (attributes e)
                                   (children e ++ [length d])) body d)
                MODAL_ELEMENTS j) as H.
  rewrite length_alter in H. rewrite H.
  destruct j as [|[|[|[|[|j]]]]]; try lia; reflexivity.
Qed.

Lemma openPresentationModal_run b m :
  select b (IdSelector "presentationModal") = Some m ->
  openPresentationModal b =
  (Return tt, set_styleLog ((m, ("display", "block")) :: styleLog b) b).
Proof. exact (set_display_found "block" b m). Qed.

Lemma closePresentationModal_run b m :
  select b (IdSelector "presentationModal") = Some m ->
  closePresentationModal b =
  (Return tt, set_styleLog ((m, ("display", "none")) :: styleLog b) b).
Proof. exact (set_display_found "none" b m). Qed.

Lemma select_set_styleLog s b sel :
  select (set_styleLog s b) sel = select b sel.
Proof. reflexivity. Qed.

Lemma style_of_latest css_valid b n prop value :
  css_valid prop value = true ->
  style_of css_valid (set_styleLog ((n, (prop, value)) :: styleLog b) b)
    n prop = Some value.
Proof.
  intros Hv. unfold style_of. cbn [styleLog set_styleLog find fst snd].
  now rewrite Nat.eqb_refl, String.eqb_refl, Hv.
Qed.

Lemma setModalImgSrc_src v b i :
  select b (IdSelector "modalImage") = Some i ->
  attribute_of (browser_after (setModalImgSrc v) b) i "src" = Some v.
Proof.
  intros Hi. unfold browser_after, attribute_of.
  rewrite (setModalImgSrc_run _ _ _ Hi).
  cbn [snd page set_page document set_document].
  destruct (has_id_lookup _ _ _ (proj1 (select_matches _ _ _ Hi)))
    as (e & He & _).
  rewrite list_lookup_alter_eq, He.
  cbn [mbind option_bind attributes]. apply get_set_attribute.
Qed.

(** X13: [createModal] is all the set-up the other modal functions need.
    In a document with a body and none of the modal's ids in use, after
    [createModal]: [openPresentationModal] and [closePresentationModal]
    succeed and show and hide the modal that was created,
    [setModalImgSrc] sets the [src] of the image that was created, and
    [initModal] succeeds; if no click listener was registered before, a
    click on a created button then calls the function given for it, once,
    and nothing else. *)
Theorem createModal_then_use
    (css_valid : string -> string -> bool) (src : string) (f g h : FunId)
    (b : Browser) (body : NodeId) :
  store_closed (document (page b)) = true ->
  document_readable b = true ->
  select b (TypeSelector "body") = Some body ->
  ids_unused MODAL_IDS (document (page b)) = true ->
  css_valid "display" "block" = true ->
  css_valid "display" "none" = true ->
  outcome (createModal;; openPresentationModal) b = Return tt /\
  style_of css_valid (browser_after (createModal;; openPresentationModal) b)
    (length (document (page b)) + 0) "display" = Some "block" /\
  outcome (createModal;; openPresentationModal;; closePresentationModal) b
    = Return tt /\
  style_of css_valid
    (browser_after
       (createModal;; openPresentationModal;; closePresentationModal) b)
    (length (document (page b)) + 0) "display" = Some "none" /\
  outcome (createModal;; setModalImgSrc src) b = Return tt /\
  attribute_of (browser_after (createModal;; setModalImgSrc src) b)
    (length (document (page b)) + 1) "src" = Some src /\
  outcome (createModal;; initModal f g h) b = Return tt /\
  (clickListeners b = [] ->
   hostCalls (browser_after
                (createModal;; initModal f g h;;
                 click (length (document (page b)) + 2)) b) =
     hostCalls b ++ [EventCall f (length (document (page b)) + 2)] /\
   hostCalls (browser_after
                (createModal;; initModal f g h;;
                 click (length (document (page b)) + 3)) b) =
     hostCalls b ++ [EventCall g (length (document (page b)) + 3)] /\
   hostCalls (browser_after
                (createModal;; initModal f g h;;
                 click (length (document (page b)) + 4)) b) =
     hostCalls b ++ [EventCall h (length (document (page b)) + 4)]).
Proof.
  intros Hclosed Hread Hbody Hunused Hblock Hnone.
  pose proof (fun j id => createModal_finds b body j id Hclosed Hread Hbody
                            Hunused) as Hfind.
  pose proof (Hfind 0 _ eq_refl) as Hm.
  pose proof (Hfind 1 _ eq_refl) as Hi.
  pose proof (Hfind 2 _ eq_refl) as Hc.
  pose proof (Hfind 3 _ eq_refl) as Hp.
  pose proof (Hfind 4 _ eq_refl) as Hx.
  clear Hfind.
  assert (Hcreate : createModal b = (Return tt, browser_after createModal b)).
  { destruct b as [[w d cs ho] r s l hc]. cbn [page document] in *.
    unfold browser_after.
    now rewrite (createModal_run _ _ _ _ _ _ _ _ body Hclosed Hread Hbody). }
  assert (Hleaf : forall j, 2 <= j < 5 ->
            is_leaf (document (page (browser_after createModal b)))
              (length (document (page b)) + j) = true).
  { intros j Hj. destruct b as [[w d cs ho] r s l hc]. cbn [page document] in *.
    unfold browser_after.
    rewrite (createModal_run _ _ _ _ _ _ _ _ body Hclosed Hread Hbody).
    cbn [snd page document]. now apply modal_buttons_are_leaves. }
  assert (Hlisteners : clickListeners (browser_after createModal b) =
                       clickListeners b).
  { destruct b as [[w d cs ho] r s l hc]. cbn [page document] in *.
    unfold browser_after.
    now rewrite (createModal_run _ _ _ _ _ _ _ _ body Hclosed Hread Hbody). }
  assert (Hcalls : hostCalls (browser_after createModal b) = hostCalls b).
  { destruct b as [[w d cs ho] r s l hc]. cbn [page document] in *.
    unfold browser_after.
    now rewrite (createModal_run _ _ _ _ _ _ _ _ body Hclosed Hread Hbody). }
  remember (length (document (page b))) as k eqn:Hk.
  remember (browser_after createModal b) as b1 eqn:Hb1.
  assert (Hseq : forall {A} (m : DOM A), (createModal;; m) b = m b1).
  { intros A m. unfold mbind, DOM_bind. now rewrite Hcreate. }
  assert (Hout : forall {A} (m : DOM A),
            outcome (createModal;; m) b = outcome m b1).
  { intros A m. unfold outcome. now rewrite Hseq. }
  assert (Hafter : forall {A} (m : DOM A),
            browser_after (createModal;; m) b = browser_after m b1).
  { intros A m. unfold browser_after. now rewrite Hseq. }
  rewrite !Hout, !Hafter. clear Hseq Hout Hafter.
  pose proof (openPresentationModal_run b1 (k + 0) Hm) as Hopen.
  pose proof (closePresentationModal_run
                (set_styleLog ((k + 0, ("display", "block")) :: styleLog b1)
                   b1) (k + 0)
                (eq_trans (select_set_styleLog _ b1 _) Hm)) as Hclose.
  split; [unfold outcome; now rewrite Hopen|].
  split.
  { unfold browser_after. rewrite Hopen. cbn [snd].
    apply style_of_latest, Hblock. }
  split.
  { unfold outcome, mbind, DOM_bind. rewrite Hopen. now rewrite Hclose. }
  split.
  { unfold browser_after, mbind, DOM_bind. rewrite Hopen, Hclose. cbn [snd].
    apply style_of_latest, Hnone. }
  split; [unfold outcome; now rewrite (setModalImgSrc_run _ _ _ Hi)|].
  split; [exact (setModalImgSrc_src src b1 (k + 1) Hi)|].
  destruct (initModal_after f g h b1 _ _ _ Hc Hp Hx) as (Hinit & _).
  split; [unfold outcome; now rewrite Hinit|].
  intros Hempty. rewrite <- Hlisteners in Hempty.
  assert (Hthen : forall n,
            browser_after (initModal f g h;; click n) b1 =
            browser_after (click n) (browser_after (initModal f g h) b1)).
  { intros n. unfold browser_after at 1 2. unfold mbind, DOM_bind.
    now rewrite Hinit. }
  rewrite !Hthen, <- Hcalls.
  apply (initModal_clicks f g h b1 _ _ _ Hc Hp Hx Hempty);
    apply Hleaf; lia.
Qed.

Lemma createModal_then_use_witness :
  style_of css_example
    (browser_after (createModal;; openPresentationModal) bare_browser)
    2 "display" = Some "block" /\
  attribute_of (browser_after (createModal;; setModalImgSrc "a") bare_browser)
    3 "src" = Some "a" /\
  hostCalls (browser_after (createModal;; initModal 10 11 12;; click 4)
               bare_browser) = [EventCall 10 4].
Proof.
  destruct (createModal_then_use css_example "a" 10 11 12 bare_browser 1
              eq_refl eq_refl eq_refl eq_refl eq_refl eq_refl)
    as (_ & H2 & _ & _ & _ & H6 & _ & H8).
  split; [exact H2|]. split; [exact H6|].
  exact (proj1 (H8 eq_refl)).
Defined.
